(** * emlearn tree ensembles: a shallow embedding of [eml_trees.h]

    The inference engine of [src/emlearn/eml_trees.h] is embedded as
    executable Rocq functions:

    - C integers are [Z] with their ranges written out; signed overflow and
      out-of-bounds or null accesses are the outcome [Undefined];
    - [float] is IEEE-754 binary32, computed with the Standard Library's
      [SpecFloat] at precision 24 and maximal exponent 128;
    - arrays are lists (their length is the size of the allocation), pointers
      that may be null are [option]s;
    - the [while] loop of the traversal takes fuel; running out of it is the
      outcome [Timeout]. *)

From Stdlib Require Import ZArith Lia Bool QArith Qpower.
From Stdlib Require Import SpecFloat.
From stdpp Require Import base list.

Local Open Scope Z_scope.

(** ** Outcomes of running C code *)

Inductive outcome (A : Type) : Type :=
| Done (a : A)
| Undefined
| Timeout.

Arguments Done {A} a.
Arguments Undefined {A}.
Arguments Timeout {A}.

Definition obind {A B} (c : outcome A) (k : A -> outcome B) : outcome B :=
  match c with
  | Done a => k a
  | Undefined => Undefined
  | Timeout => Timeout
  end.

Declare Scope outcome_scope.
Delimit Scope outcome_scope with outcome.
Notation "'do' x <- c ; k" := (obind c (fun x => k))
  (at level 10, x name, c at level 100, k at level 200) : outcome_scope.
Local Open Scope outcome_scope.

(** ** C integer types *)

Definition INT32_MIN : Z := -2147483648.
Definition INT32_MAX : Z := 2147483647.

Definition in_int32 (z : Z) : bool := (INT32_MIN <=? z) && (z <=? INT32_MAX).

(** The result of an [int] operation: overflow is undefined behaviour. *)
Definition int32_op (z : Z) : outcome Z :=
  if in_int32 z then Done z else Undefined.

(** Conversion to [int16_t] keeps the low 16 bits. *)
Definition to_int16 (z : Z) : Z := (z + 32768) mod 65536 - 32768.

(** ** Arrays and pointers *)

Definition load {A} (a : list A) (i : Z) : outcome A :=
  if i <? 0 then Undefined
  else match a !! Z.to_nat i with
       | Some x => Done x
       | None => Undefined
       end.

Definition store {A} (a : list A) (i : Z) (x : A) : outcome (list A) :=
  if (0 <=? i) && (i <? Z.of_nat (length a))
  then Done (<[Z.to_nat i := x]> a)
  else Undefined.

Definition deref {A} (p : option A) : outcome A :=
  match p with
  | Some a => Done a
  | None => Undefined
  end.

(** ** [float]: IEEE-754 binary32 *)

Definition f32 : Type := spec_float.

Definition f32_prec : Z := 24.
Definition f32_emax : Z := 128.

Definition f32_zero : f32 := S754_zero false.
Definition f32_nan : f32 := S754_nan.

(** Conversion of an integer to [float], round to nearest even. *)
Definition f32_of_Z (n : Z) : f32 := binary_normalize f32_prec f32_emax n 0 false.

Definition f32_one : f32 := f32_of_Z 1.

Definition f32_add : f32 -> f32 -> f32 := SFadd f32_prec f32_emax.
Definition f32_div : f32 -> f32 -> f32 := SFdiv f32_prec f32_emax.

(** [a > b] on floats; false when either side is NaN. *)
Definition f32_gt (a b : f32) : bool := SFltb b a.
Definition f32_ge (a b : f32) : bool := SFleb b a.

(** The exact rational value of a float that has one. *)
Definition f32_value (x : f32) : option Q :=
  match x with
  | S754_zero _ => Some 0%Q
  | S754_finite s m e =>
      Some (inject_Z (if s then Z.neg m else Z.pos m) * Qpower 2 e)%Q
  | S754_infinity _ | S754_nan => None
  end.

(** The float stored in a 32-bit word (sign, 8 exponent bits, 23 fraction
    bits). *)
Definition f32_of_bits (w : Z) : f32 :=
  let s := Z.testbit w 31 in
  let e := Z.land (Z.shiftr w 23) 255 in
  let m := Z.land w 8388607 in
  if e =? 0 then
    match m with
    | Z.pos p => S754_finite s p (-149)
    | _ => S754_zero s
    end
  else if e =? 255 then
    (if m =? 0 then S754_infinity s else S754_nan)
  else
    match m + 8388608 with
    | Z.pos p => S754_finite s p (e - 150)
    | _ => S754_nan
    end.

(** ** The model: [EmlTreesNode] and [EmlTrees]

    The node fields [feature], [value], [left] and [right] carry the prefix
    [node_]: [left] and [right] are constructors of the Standard Library. *)

Record EmlTreesNode : Type := {
  node_feature : Z;   (* int8_t *)
  node_value : Z;     (* int16_t *)
  node_left : Z;      (* int16_t *)
  node_right : Z;     (* int16_t *)
}.

Record EmlTrees : Type := {
  n_nodes : Z;                  (* int32_t *)
  nodes : list EmlTreesNode;
  n_trees : Z;                  (* int32_t *)
  tree_roots : list Z;          (* int32_t * *)
  n_leaves : Z;                 (* int32_t *)
  leaves : list Z;              (* uint8_t * *)
  leaf_bits : Z;                (* int8_t *)
  n_features : Z;               (* int8_t *)
  n_classes : Z;                (* int8_t *)
}.

(** [EmlTreesError] and [EMTREES_MAX_CLASSES]. *)
Inductive EmlTreesError : Type :=
| EmlTreesOK
| EmlTreesUnknownError
| EmlTreesInvalidClassPredicted
| EmlTreesErrorLength.

Definition EmlTreesError_code (e : EmlTreesError) : Z :=
  match e with
  | EmlTreesOK => 0
  | EmlTreesUnknownError => 1
  | EmlTreesInvalidClassPredicted => 2
  | EmlTreesErrorLength => 3
  end.

Definition EMTREES_MAX_CLASSES : Z := 30.

(** Modelled from the spec: the error kinds of [EmlError], declared in
    [eml_common.h], which is not part of the sources. The spec lists the kinds
    size-mismatch, unsupported-encoding, uninitialized-input and
    generic/unknown failure next to OK. *)
Inductive EmlError : Type :=
| EmlOk
| EmlSizeMismatch
| EmlUnsupported
| EmlUninitialized
| EmlUnknownError.

Definition EmlError_eqb (a b : EmlError) : bool :=
  match a, b with
  | EmlOk, EmlOk
  | EmlSizeMismatch, EmlSizeMismatch
  | EmlUnsupported, EmlUnsupported
  | EmlUninitialized, EmlUninitialized
  | EmlUnknownError, EmlUnknownError => true
  | _, _ => false
  end.

(** ** [eml_trees_predict_tree] *)

(** The [while (node_idx >= 0)] loop; the result is [node_idx] on exit. *)
Fixpoint predict_tree_loop (fuel : nat) (forest : EmlTrees)
    (features : option (list Z)) (node_idx : Z) : outcome Z :=
  if node_idx <? 0 then Done node_idx
  else
    match fuel with
    | O => Timeout
    | S fuel' =>
        do nd <- load (nodes forest) node_idx ;
        do fs <- deref features ;
        do value <- load fs (node_feature nd) ;
        let point := node_value nd in
        let child := if value <? point then node_left nd else node_right nd in
        do next <- (if child >=? 0 then int32_op (node_idx + child)
                 else Done child) ;
        predict_tree_loop fuel' forest features next
    end.

Definition eml_trees_predict_tree (fuel : nat) (forest : EmlTrees)
    (tree_root : Z) (features : option (list Z)) (features_length : Z)
    : outcome Z :=
  do node_idx <- predict_tree_loop fuel forest features tree_root ;
  do neg <- int32_op (- node_idx) ;
  let leaf := to_int16 (neg - 1) in
  Done leaf.

(** ** [for] loops

    [for_loop n body s] is [for (i = 0; i < n; i++) body], threading the
    state [s] that the body updates. *)

Fixpoint for_from {St : Type} (todo : nat) (i : Z)
    (body : Z -> St -> outcome St) (s : St) : outcome St :=
  match todo with
  | O => Done s
  | S todo' =>
      do s' <- body i s ;
      for_from todo' (i + 1) body s'
  end.

Definition for_loop {St : Type} (n : Z) (body : Z -> St -> outcome St)
    (s : St) : outcome St :=
  for_from (Z.to_nat n) 0 body s.

(** ** [eml_trees_predict_proba] *)

Definition eml_trees_outputs_proba (self : EmlTrees) : Z := n_classes self.

(** One iteration of the majority-voting loop (lines 135-142). The addition
    [out[class_no] += 1.0] is done in [double] and stored as [float]; a sum of
    a binary32 value and 1 is rounded once, so it is a binary32 addition. *)
Definition majority_vote_tree (fuel : nat) (self : EmlTrees)
    (features : option (list Z)) (features_length : Z)
    (i : Z) (out : list f32) : outcome (list f32) :=
  do root <- load (tree_roots self) i ;
  do leaf_number <-
    eml_trees_predict_tree fuel self root features features_length ;
  do class_no <- load (leaves self) leaf_number ;
  do cur <- load out class_no ;
  store out class_no (f32_add cur f32_one).

(** One iteration of the soft-voting loop (lines 150-168).
    [leaf_data[class_no] / 255] divides two [int]s. *)
Definition soft_vote_tree (fuel : nat) (self : EmlTrees)
    (features : option (list Z)) (features_length : Z)
    (i : Z) (out : list f32) : outcome (list f32) :=
  let leaf_size := 1 * n_classes self in
  do root <- load (tree_roots self) i ;
  do leaf_number <-
    eml_trees_predict_tree fuel self root features features_length ;
  do leaf_offset <- int32_op (leaf_number * leaf_size) ;
  for_loop (n_classes self)
    (fun class_no out =>
       do byte <- load (leaves self) (leaf_offset + class_no) ;
       let class_proportion := f32_of_Z (Z.quot byte 255) in
       do cur <- load out class_no ;
       store out class_no (f32_add cur class_proportion))
    out.

(** Lines 127-172: the zero-fill and the votes of all trees, before the
    mean is taken. *)
Definition predict_proba_accumulate (fuel : nat) (self : EmlTrees)
    (features : option (list Z)) (features_length : Z)
    (out : list f32) (out_length : Z) : outcome (EmlError * list f32) :=
  do out <- for_loop out_length (fun i out => store out i f32_zero) out ;
  let leaf_bits_per_class := leaf_bits self in
  if leaf_bits_per_class =? 0 then
    do out <- for_loop (n_trees self)
                (majority_vote_tree fuel self features features_length) out ;
    Done (EmlOk, out)
  else if leaf_bits_per_class =? 8 then
    do out <- for_loop (n_trees self)
                (soft_vote_tree fuel self features features_length) out ;
    Done (EmlOk, out)
  else Done (EmlUnsupported, out).

(** Lines 174-177: [out[i] = out[i] / self->n_trees], the [int32_t] divisor
    converted to [float]. *)
Definition predict_proba_mean (self : EmlTrees) (out : list f32)
    (out_length : Z) : outcome (list f32) :=
  for_loop out_length
    (fun i out =>
       do cur <- load out i ;
       store out i (f32_div cur (f32_of_Z (n_trees self))))
    out.

(** Modelled from the spec: the macro [EML_PRECONDITION(expr, errorcode)] of
    [eml_common.h], which is not part of the sources; a failed precondition
    returns its error kind at once. *)
Definition EML_PRECONDITION {A : Type} (expr : bool) (errorcode : EmlError)
    (fail : EmlError -> A) (continue : A) : A :=
  if expr then continue else fail errorcode.

Definition eml_trees_predict_proba (fuel : nat) (self : EmlTrees)
    (features : option (list Z)) (features_length : Z)
    (out : option (list f32)) (out_length : Z)
    : outcome (EmlError * option (list f32)) :=
  let fail := fun e => Done (e, out) in
  EML_PRECONDITION (bool_decide (is_Some features)) EmlUninitialized fail (
  EML_PRECONDITION (bool_decide (is_Some out)) EmlUninitialized fail (
  let n_outputs := eml_trees_outputs_proba self in
  EML_PRECONDITION (out_length =? n_outputs) EmlSizeMismatch fail (
  do buf <- deref out ;
  do r <- predict_proba_accumulate fuel self features features_length
            buf out_length ;
  match r with
  | (EmlOk, acc) =>
      do res <- predict_proba_mean self acc out_length ;
      Done (EmlOk, Some res)
  | (err, acc) => Done (err, Some acc)
  end))).

(** ** [eml_trees_predict] *)

(** Lines 218-226: the scan for the most voted class. *)
Definition most_voted (votes : list f32) (n_classes : Z) : outcome (Z * f32) :=
  for_loop n_classes
    (fun i best =>
       let '(most_voted_class, most_voted_value) := best in
       do v <- load votes i ;
       if f32_gt v most_voted_value then Done (i, v)
       else Done (most_voted_class, most_voted_value))
    (-1, f32_zero).

Definition eml_trees_predict (fuel : nat) (forest : EmlTrees)
    (features : option (list Z)) (features_length : Z) : outcome Z :=
  if negb (features_length =? n_features forest) then
    Done (- EmlTreesError_code EmlTreesErrorLength)
  else if n_classes forest >? EMTREES_MAX_CLASSES then
    Done (- EmlTreesError_code EmlTreesErrorLength)
  else
    let votes := replicate (Z.to_nat EMTREES_MAX_CLASSES) f32_zero in
    let n_classes := n_classes forest in
    do r <- eml_trees_predict_proba fuel forest features features_length
              (Some votes) n_classes ;
    let '(err, votes) := r in
    if negb (EmlError_eqb err EmlOk) then
      Done (- EmlTreesError_code EmlTreesUnknownError)
    else
      do votes <- deref votes ;
      do best <- most_voted votes n_classes ;
      Done (fst best).

(** ** [eml_trees_regress] and [eml_trees_regress1] *)

(** [*(float * )(leaves + offset)]: four bytes read as one [float], least
    significant byte first. *)
Definition load_float (leaves : list Z) (offset : Z) : outcome f32 :=
  do b0 <- load leaves offset ;
  do b1 <- load leaves (offset + 1) ;
  do b2 <- load leaves (offset + 2) ;
  do b3 <- load leaves (offset + 3) ;
  Done (f32_of_bits (b0 + 256 * b1 + 65536 * b2 + 16777216 * b3)).

(** One iteration of the loop of lines 274-280. *)
Definition regress_tree (fuel : nat) (forest : EmlTrees)
    (features : option (list Z)) (features_length : Z)
    (i : Z) (sum : f32) : outcome f32 :=
  let leaf_size := 4 in
  do root <- load (tree_roots forest) i ;
  do leaf_number <-
    eml_trees_predict_tree fuel forest root features features_length ;
  do leaf_offset <- int32_op (leaf_number * leaf_size) ;
  do val <- load_float (leaves forest) leaf_offset ;
  Done (f32_add sum val).

Definition eml_trees_regress (fuel : nat) (forest : EmlTrees)
    (features : option (list Z)) (features_length : Z)
    (out : option (list f32)) (out_length : Z)
    : outcome (EmlError * option (list f32)) :=
  if out_length <? 1 then Done (EmlSizeMismatch, out)
  else if negb (leaf_bits forest =? 32) then Done (EmlUnsupported, out)
  else
    do sum <- for_loop (n_trees forest)
                (regress_tree fuel forest features features_length) f32_zero ;
    do buf <- deref out ;
    do buf <- store buf 0 (f32_div sum (f32_of_Z (n_trees forest))) ;
    Done (EmlOk, Some buf).

(** The local [float out[1]] starts with an indeterminate value, here zero;
    [eml_trees_regress] only writes it. *)
Definition eml_trees_regress1 (fuel : nat) (forest : EmlTrees)
    (features : option (list Z)) (features_length : Z) : outcome f32 :=
  let out := [f32_zero] in
  do r <- eml_trees_regress fuel forest features features_length (Some out) 1 ;
  let '(err, out) := r in
  if negb (EmlError_eqb err EmlOk) then Done f32_nan
  else
    do out <- deref out ;
    load out 0.

(** ** Well-formed models

    The engine does not check the model. [tree_wfb forest depth node_idx]
    checks the tree below [node_idx] down to [depth] levels: every node is in
    bounds, tests a feature below [n_features], and each child is a leaf
    sentinel for a leaf below [n_leaves] or a relative jump to a node that is
    well formed in turn. A tree that passes for some [depth] is acyclic, and
    a cyclic one passes for none. *)

Fixpoint tree_wfb (forest : EmlTrees) (depth : nat) (node_idx : Z) : bool :=
  match depth with
  | O => false
  | S depth' =>
      (0 <=? node_idx) && (node_idx <? n_nodes forest) &&
      match nodes forest !! Z.to_nat node_idx with
      | None => false
      | Some nd =>
          let child_wfb := fun child =>
            if child <? 0
            then (-32768 <=? child) && (- child - 1 <? n_leaves forest)
            else (child <=? 32767) && tree_wfb forest depth' (node_idx + child) in
          (0 <=? node_feature nd) && (node_feature nd <? n_features forest) &&
          child_wfb (node_left nd) && child_wfb (node_right nd)
      end
  end.

(** The size of a leaf in the byte buffer, from the table of leaf payload
    encodings. *)
Definition bytes_per_leaf (forest : EmlTrees) : Z :=
  if leaf_bits forest =? 0 then 1
  else if leaf_bits forest =? 8 then n_classes forest
  else if leaf_bits forest =? 32 then 4
  else 0.

(** A well-formed model for a feature vector: the node count is an
    [int32_t], the vector has the [n_features] values, [tree_roots] has the
    [n_trees] roots, every tree is well formed down to [depth] levels, and
    the leaf buffer has [n_leaves] leaves of the size of the encoding. *)
Record forest_wf (forest : EmlTrees) (feats : list Z) (depth : nat) : Prop := {
  wf_nodes : n_nodes forest <= INT32_MAX;
  wf_feats : n_features forest <= Z.of_nat (length feats);
  wf_trees : 0 <= n_trees forest <= Z.of_nat (length (tree_roots forest));
  wf_roots : forall (i : nat) (root : Z),
      (i < Z.to_nat (n_trees forest))%nat ->
      tree_roots forest !! i = Some root ->
      tree_wfb forest depth root = true;
  wf_leaves :
    n_leaves forest * bytes_per_leaf forest
    = Z.of_nat (length (leaves forest));
}.

(** The same as a check that computes. *)
Definition forest_wfb (forest : EmlTrees) (feats : list Z) (depth : nat)
    : bool :=
  (n_nodes forest <=? INT32_MAX) &&
  (n_features forest <=? Z.of_nat (length feats)) &&
  (0 <=? n_trees forest) &&
  (n_trees forest <=? Z.of_nat (length (tree_roots forest))) &&
  forallb (tree_wfb forest depth)
    (take (Z.to_nat (n_trees forest)) (tree_roots forest)) &&
  (n_leaves forest * bytes_per_leaf forest
   =? Z.of_nat (length (leaves forest))).

(** Every leaf of a majority-vote model names a class below [n_classes]. *)
Definition class_bytes_wfb (forest : EmlTrees) : bool :=
  forallb (fun b => (0 <=? b) && (b <? n_classes forest)) (leaves forest).

(** ** The traversal as the specification words it

    Start at [node_idx = tree_root]; while [node_idx >= 0] read the node,
    take [child = left] if [features[node.feature] < node.threshold] else
    [right], add [child] to [node_idx] when [child >= 0] and otherwise set
    [node_idx = child]; on exit [leaf_index = -node_idx - 1]. *)

Inductive spec_walk (nds : list EmlTreesNode) (features : list Z)
    : Z -> Z -> Prop :=
| spec_walk_exit (node_idx : Z) :
    node_idx < 0 -> spec_walk nds features node_idx node_idx
| spec_walk_step (node_idx : Z) (nd : EmlTreesNode) (v child final : Z) :
    0 <= node_idx ->
    nds !! Z.to_nat node_idx = Some nd ->
    0 <= node_feature nd ->
    features !! Z.to_nat (node_feature nd) = Some v ->
    child = (if v <? node_value nd then node_left nd else node_right nd) ->
    spec_walk nds features (if 0 <=? child then node_idx + child else child)
      final ->
    spec_walk nds features node_idx final.

Definition spec_traverse (nds : list EmlTreesNode) (features : list Z)
    (tree_root leaf_index : Z) : Prop :=
  exists node_idx,
    spec_walk nds features tree_root node_idx /\ leaf_index = - node_idx - 1.

(** ** What the aggregators compute, as the specification words it *)

(** The class that the scan of [eml_trees_predict] selects among the first
    [n] scores, as the specification words it: no class ([-1]) when no score
    is above zero; otherwise a class whose score is above zero, that no score
    exceeds, and that no earlier class reaches. *)
Definition first_strict_maximum (votes : list f32) (n : Z) (k : Z) : Prop :=
  (k = -1 /\
   forall j vj, 0 <= j < n -> votes !! Z.to_nat j = Some vj ->
                f32_gt vj f32_zero = false) \/
  (0 <= k < n /\
   exists vk,
     votes !! Z.to_nat k = Some vk /\
     f32_gt vk f32_zero = true /\
     (forall j vj, 0 <= j < n -> votes !! Z.to_nat j = Some vj ->
                   f32_gt vj vk = false) /\
     (forall j vj, 0 <= j < k -> votes !! Z.to_nat j = Some vj ->
                   f32_ge vj vk = false)).

(** What one tree of a majority-vote model does to the buffer:
    [out[class_no] += 1.0]. *)
Definition unit_vote (out : list f32) (class_no : Z) : list f32 :=
  match out !! Z.to_nat class_no with
  | Some cur => <[Z.to_nat class_no := f32_add cur f32_one]> out
  | None => out
  end.

(** What a caller of [eml_trees_regress] observes: the status, and [out[0]]
    when the status is [EmlOk]. *)
Definition regress_observation (r : outcome (EmlError * option (list f32)))
    : outcome (EmlError * option f32) :=
  match r with
  | Done (EmlOk, Some (v :: _)) => Done (EmlOk, Some v)
  | Done (err, _) => Done (err, None)
  | Undefined => Undefined
  | Timeout => Timeout
  end.

(** ** Exact values and the order of [float]s *)

(** The sum of the exact values of a list of [float]s. *)
Fixpoint f32_sum_value (l : list f32) : option Q :=
  match l with
  | [] => Some 0%Q
  | x :: l =>
      match f32_value x, f32_sum_value l with
      | Some a, Some b => Some (a + b)%Q
      | _, _ => None
      end
  end.

Fixpoint Zsum (l : list Z) : Z :=
  match l with
  | [] => 0
  | c :: l => c + Zsum l
  end.

(** The order of [SFcompare] is the lexicographic order of these keys: the
    kind of the number, then exponent and mantissa, reversed for negative
    numbers. NaN has none. *)
Definition f32_key (x : f32) : option (Z * Z * Z) :=
  match x with
  | S754_nan => None
  | S754_zero _ => Some (0, 0, 0)
  | S754_infinity false => Some (2, 0, 0)
  | S754_infinity true => Some (-2, 0, 0)
  | S754_finite false m e => Some (1, e, Z.pos m)
  | S754_finite true m e => Some (-1, - e, Z.neg m)
  end.

Definition key_lt (a b : Z * Z * Z) : Prop :=
  let '(a1, a2, a3) := a in
  let '(b1, b2, b3) := b in
  a1 < b1 \/ (a1 = b1 /\ (a2 < b2 \/ (a2 = b2 /\ a3 < b3))).

(** ** Models of the scenarios *)

(** Scenario A of the specification: one node [{feature=0, threshold=10,
    left=leaf(0), right=leaf(1)}]. *)
Definition scenario_A_node : EmlTreesNode :=
  {| node_feature := 0; node_value := 10; node_left := -1; node_right := -2 |}.

Definition scenario_A : EmlTrees :=
  {| n_nodes := 1; nodes := [scenario_A_node];
     n_trees := 1; tree_roots := [0];
     n_leaves := 2; leaves := [0; 1]; leaf_bits := 0;
     n_features := 1; n_classes := 2 |}.

(** Scenario B of the specification: three majority-vote trees and two
    classes; on the features [[5]] the trees vote for the classes 0, 1, 1. *)
Definition scenario_B : EmlTrees :=
  {| n_nodes := 2;
     nodes := [scenario_A_node;
               {| node_feature := 0; node_value := 10;
                  node_left := -2; node_right := -1 |}];
     n_trees := 3; tree_roots := [0; 1; 1];
     n_leaves := 2; leaves := [0; 1]; leaf_bits := 0;
     n_features := 1; n_classes := 2 |}.

(** Scenario C of the specification: soft vote, one tree, two classes; the
    leaf selected by the features [[5]] holds the bytes [{200, 55}]. *)
Definition scenario_C : EmlTrees :=
  {| n_nodes := 1; nodes := [scenario_A_node];
     n_trees := 1; tree_roots := [0];
     n_leaves := 2; leaves := [200; 55; 55; 200]; leaf_bits := 8;
     n_features := 1; n_classes := 2 |}.

(** Two trees that vote for class 0 and for class 1 on the features [[5]]. *)
Definition scenario_tie : EmlTrees :=
  {| n_nodes := 2;
     nodes := [scenario_A_node;
               {| node_feature := 0; node_value := 10;
                  node_left := -2; node_right := -1 |}];
     n_trees := 2; tree_roots := [0; 1];
     n_leaves := 2; leaves := [0; 1]; leaf_bits := 0;
     n_features := 1; n_classes := 2 |}.

(** Scenario A with regression leaves: leaf 0 holds [1.0f] and leaf 1 holds
    [2.5f]; two trees. *)
Definition scenario_regression : EmlTrees :=
  {| n_nodes := 1; nodes := [scenario_A_node];
     n_trees := 2; tree_roots := [0; 0];
     n_leaves := 2; leaves := [0; 0; 128; 63; 0; 0; 32; 64]; leaf_bits := 32;
     n_features := 1; n_classes := 0 |}.

(** Scenario C with a leaf encoding that no function supports. *)
Definition unsupported_model : EmlTrees :=
  {| n_nodes := 1; nodes := [scenario_A_node];
     n_trees := 1; tree_roots := [0];
     n_leaves := 2; leaves := [200; 55; 55; 200]; leaf_bits := 16;
     n_features := 1; n_classes := 2 |}.

(** A regression model without trees. *)
Definition no_trees_regressor : EmlTrees :=
  {| n_nodes := 0; nodes := [];
     n_trees := 0; tree_roots := [];
     n_leaves := 0; leaves := []; leaf_bits := 32;
     n_features := 1; n_classes := 0 |}.

(** A majority-vote model of [2^24 + 1] trees, all of them the tree of
    scenario A, with one class. *)
Definition many_trees : EmlTrees :=
  {| n_nodes := 1; nodes := [scenario_A_node];
     n_trees := 16777217; tree_roots := replicate (Z.to_nat 16777217) 0;
     n_leaves := 2; leaves := [0; 0]; leaf_bits := 0;
     n_features := 1; n_classes := 1 |}.

(** ** Further notions for the properties beyond the specification *)

Definition in_int16 (z : Z) : bool := (-32768 <=? z) && (z <=? 32767).

(** The children of every node are [int16_t] values, as the type of
    [EmlTreesNode] has them. *)
Definition nodes_typedb (forest : EmlTrees) : bool :=
  forallb (fun nd => in_int16 (node_left nd) && in_int16 (node_right nd))
    (nodes forest).

(** The leaf buffer holds [uint8_t] values. *)
Definition leaf_bytes_typedb (forest : EmlTrees) : bool :=
  forallb (fun b => (0 <=? b) && (b <=? 255)) (leaves forest).

(** A node whose left child is the relative jump 0, a jump to itself. *)
Definition self_loop_model : EmlTrees :=
  {| n_nodes := 1;
     nodes := [{| node_feature := 0; node_value := 10;
                  node_left := 0; node_right := -1 |}];
     n_trees := 1; tree_roots := [0];
     n_leaves := 1; leaves := [0]; leaf_bits := 0;
     n_features := 1; n_classes := 1 |}.

(** The bytes of leaf [l] of a soft-vote model. *)
Definition soft_leaf_bytes (forest : EmlTrees) (l : Z) : list Z :=
  take (Z.to_nat (n_classes forest))
    (drop (Z.to_nat (l * n_classes forest)) (leaves forest)).

(** What the soft vote adds to the score of each class for leaf [l]: one
    for a byte 255, nothing for another byte. *)
Definition soft_units (forest : EmlTrees) (l : Z) : list Z :=
  (fun b => if b =? 255 then 1 else 0) <$> soft_leaf_bytes forest l.

(** The scores of the classes after the trees that reach the leaves [ls]. *)
Definition soft_counts (forest : EmlTrees) (ls : list Z) : list Z :=
  foldl (fun counts l => zip_with Z.add counts (soft_units forest l))
    (replicate (Z.to_nat (n_classes forest)) 0) ls.

(** No leaf byte is 255. *)
Definition leaf_bytes_below_255b (forest : EmlTrees) : bool :=
  forallb (fun b => (0 <=? b) && (b <=? 254)) (leaves forest).

(** A soft-vote model of three trees: on the features [[5]] the first
    reaches leaf 0, with the bytes [{255, 0}], and the others leaf 1, with the
    bytes [{0, 255}]. *)
Definition scenario_soft : EmlTrees :=
  {| n_nodes := 2;
     nodes := [scenario_A_node;
               {| node_feature := 0; node_value := 10;
                  node_left := -2; node_right := -1 |}];
     n_trees := 3; tree_roots := [0; 1; 1];
     n_leaves := 2; leaves := [255; 0; 0; 255]; leaf_bits := 8;
     n_features := 1; n_classes := 2 |}.

(** One more vote for class [c] in a list of vote counts. *)
Definition tally (counts : list Z) (c : Z) : list Z :=
  match counts !! Z.to_nat c with
  | Some x => <[Z.to_nat c := x + 1]> counts
  | None => counts
  end.

(** A majority-vote model with a leaf that names class 40. *)
Definition class_out_of_range_model : EmlTrees :=
  {| n_nodes := 1; nodes := [scenario_A_node];
     n_trees := 1; tree_roots := [0];
     n_leaves := 2; leaves := [40; 1]; leaf_bits := 0;
     n_features := 1; n_classes := 2 |}.

(** A majority-vote model without trees. *)
Definition no_trees_classifier : EmlTrees :=
  {| n_nodes := 0; nodes := [];
     n_trees := 0; tree_roots := [];
     n_leaves := 0; leaves := []; leaf_bits := 0;
     n_features := 1; n_classes := 2 |}.

(** * Proofs *)

(** ** Outcomes, loads and stores *)

Lemma load_Done {A} (a : list A) (i : Z) (x : A) :
  0 <= i -> a !! Z.to_nat i = Some x -> load a i = Done x.
Proof.
  intros Hi Hx. unfold load.
  destruct (Z.ltb_spec i 0); [lia |]. now rewrite Hx.
Qed.

Lemma store_Done {A} (a : list A) (i : Z) (x : A) :
  0 <= i < Z.of_nat (length a) -> store a i x = Done (<[Z.to_nat i := x]> a).
Proof.
  intros Hi. unfold store.
  destruct (Z.leb_spec 0 i); [| lia].
  destruct (Z.ltb_spec i (Z.of_nat (length a))); [reflexivity | lia].
Qed.

Lemma int32_op_Done (z : Z) :
  INT32_MIN <= z <= INT32_MAX -> int32_op z = Done z.
Proof.
  intros Hz. unfold int32_op, in_int32.
  destruct (Z.leb_spec INT32_MIN z); [| lia].
  destruct (Z.leb_spec z INT32_MAX); [reflexivity | lia].
Qed.

Lemma to_int16_small (z : Z) : -32768 <= z <= 32767 -> to_int16 z = z.
Proof.
  intros Hz. unfold to_int16. rewrite Z.mod_small; lia.
Qed.

(** ** The traversal *)

Lemma spec_walk_deterministic nds features node_idx final1 final2 :
  spec_walk nds features node_idx final1 ->
  spec_walk nds features node_idx final2 ->
  final1 = final2.
Proof.
  intros H1. revert final2.
  induction H1 as [idx Hneg | idx nd v child final Hpos Hnd Hf Hv Hc Hw IH];
    intros final2 H2.
  - inversion H2; subst; [reflexivity | lia].
  - inversion H2 as [? Hneg | ? nd' v' child' ? _ Hnd' _ Hv' Hc' Hw']; subst.
    + lia.
    + rewrite Hnd in Hnd'. injection Hnd' as <-.
      rewrite Hv in Hv'. injection Hv' as <-.
      now apply IH.
Qed.

Lemma predict_tree_loop_wf forest feats depth :
  n_nodes forest <= INT32_MAX ->
  n_features forest <= Z.of_nat (length feats) ->
  forall node_idx,
    tree_wfb forest depth node_idx = true ->
    exists final,
      spec_walk (nodes forest) feats node_idx final /\
      -32768 <= final < 0 /\ - final - 1 < n_leaves forest /\
      forall fuel, (depth <= fuel)%nat ->
        predict_tree_loop fuel forest (Some feats) node_idx = Done final.
Proof.
  intros Hn Hfeat. induction depth as [| depth IH]; intros idx Hwf.
  - discriminate.
  - cbn [tree_wfb] in Hwf.
    destruct (nodes forest !! Z.to_nat idx) as [nd |] eqn:Hnd;
      [| rewrite andb_false_r in Hwf; discriminate].
    apply andb_prop in Hwf as [Hidx Hwf].
    apply andb_prop in Hidx as [Hidx0 Hidx1].
    apply andb_prop in Hwf as [Hwf Hright].
    apply andb_prop in Hwf as [Hf Hleft].
    apply andb_prop in Hf as [Hf0 Hf1].
    assert (Hidx : 0 <= idx < n_nodes forest) by lia.
    assert (Hf : 0 <= node_feature nd < n_features forest) by lia.
    destruct (lookup_lt_is_Some_2 feats (Z.to_nat (node_feature nd)))
      as [v Hv]; [lia |].
    set (child := if v <? node_value nd then node_left nd else node_right nd).
    assert (Hchild :
      (if child <? 0
       then (-32768 <=? child) && (- child - 1 <? n_leaves forest)
       else (child <=? 32767) && tree_wfb forest depth (idx + child)) = true).
    { unfold child. destruct (v <? node_value nd); assumption. }
    assert (Hstep : forall fuel final,
      predict_tree_loop fuel forest (Some feats)
        (if 0 <=? child then idx + child else child) = Done final ->
      ((0 <=? child) = true -> idx + child <= INT32_MAX) ->
      predict_tree_loop (S fuel) forest (Some feats) idx = Done final).
    { intros fuel final Hrec Hbound. cbn [predict_tree_loop].
      destruct (Z.ltb_spec idx 0); [lia |].
      rewrite (load_Done _ _ _ (proj1 Hidx) Hnd). cbn [obind deref].
      rewrite (load_Done _ _ _ (proj1 Hf) Hv). cbn [obind].
      fold child. rewrite Z.geb_leb. revert Hrec Hbound.
      destruct (Z.leb_spec 0 child) as [Hc | Hc]; intros Hrec Hbound.
      - rewrite int32_op_Done
          by (unfold INT32_MIN; specialize (Hbound eq_refl); lia).
        exact Hrec.
      - exact Hrec. }
    destruct (Z.ltb_spec child 0) as [Hc | Hc].
    + apply andb_prop in Hchild as [Hlo Hleaf].
      exists child. split; [| split; [lia | split; [lia |]]].
      * eapply spec_walk_step; eauto; try lia. fold child.
        destruct (Z.leb_spec 0 child); [lia |].
        apply spec_walk_exit; lia.
      * intros [| fuel] Hfuel; [lia |].
        apply Hstep.
        -- destruct (Z.leb_spec 0 child); [lia |].
           destruct fuel; cbn [predict_tree_loop];
             destruct (Z.ltb_spec child 0); try lia; reflexivity.
        -- destruct (Z.leb_spec 0 child); [lia | discriminate].
    + apply andb_prop in Hchild as [Hhi Hsub].
      destruct (IH _ Hsub) as (final & Hwalk & Hrange & Hleaf & Hrun).
      assert (Hin : 0 <= idx + child < n_nodes forest).
      { destruct depth; [discriminate |]. cbn [tree_wfb] in Hsub.
        apply andb_prop in Hsub as [Hsub _]. apply andb_prop in Hsub. lia. }
      exists final. split; [| split; [lia | split; [lia |]]].
      * eapply spec_walk_step; eauto; try lia. fold child.
        destruct (Z.leb_spec 0 child); [exact Hwalk | lia].
      * intros [| fuel] Hfuel; [lia |].
        apply Hstep; [| lia].
        destruct (Z.leb_spec 0 child); [| lia].
        apply Hrun. lia.
Qed.

Lemma predict_tree_wf forest feats depth tree_root features_length :
  n_nodes forest <= INT32_MAX ->
  n_features forest <= Z.of_nat (length feats) ->
  tree_wfb forest depth tree_root = true ->
  exists leaf_index,
    spec_traverse (nodes forest) feats tree_root leaf_index /\
    0 <= leaf_index < n_leaves forest /\ leaf_index <= 32767 /\
    forall fuel, (depth <= fuel)%nat ->
      eml_trees_predict_tree fuel forest tree_root (Some feats) features_length
      = Done leaf_index.
Proof.
  intros Hn Hfeat Hwf.
  destruct (predict_tree_loop_wf forest feats depth Hn Hfeat _ Hwf)
    as (final & Hwalk & Hrange & Hleaf & Hrun).
  exists (- final - 1). split; [| split; [lia | split; [lia |]]].
  - exists final. split; [exact Hwalk | reflexivity].
  - intros fuel Hfuel. unfold eml_trees_predict_tree.
    rewrite (Hrun fuel Hfuel). cbn [obind].
    rewrite int32_op_Done by (unfold INT32_MIN, INT32_MAX; lia).
    cbn [obind]. rewrite to_int16_small by lia. reflexivity.
Qed.

(** C2: for a well-formed (acyclic, in-bounds) tree, [eml_trees_predict_tree]
    returns, given fuel for the depth of the tree, exactly the leaf index that
    the traversal of the specification reaches: start at the root, while
    [node_idx >= 0] go to [left] when the tested feature is below the
    threshold and to [right] otherwise, jumping by a non-negative child and
    stopping at a negative one, with [leaf_index = -node_idx - 1]. In scenario
    A the features [[5]] reach leaf 0 and [[15]] reach leaf 1. *)
Theorem C2_predict_tree_follows_spec_traversal :
  (forall forest feats features_length depth tree_root,
     n_nodes forest <= INT32_MAX ->
     n_features forest <= Z.of_nat (length feats) ->
     tree_wfb forest depth tree_root = true ->
     exists leaf_index,
       spec_traverse (nodes forest) feats tree_root leaf_index /\
       (forall l, spec_traverse (nodes forest) feats tree_root l ->
                  l = leaf_index) /\
       0 <= leaf_index < n_leaves forest /\
       forall fuel, (depth <= fuel)%nat ->
         eml_trees_predict_tree fuel forest tree_root (Some feats)
           features_length = Done leaf_index) /\
  eml_trees_predict_tree 1 scenario_A 0 (Some [5]) 1 = Done 0 /\
  eml_trees_predict_tree 1 scenario_A 0 (Some [15]) 1 = Done 1.
Proof.
  split; [| split; reflexivity].
  intros forest feats fl depth root Hn Hfeat Hwf.
  destruct (predict_tree_wf forest feats depth root fl Hn Hfeat Hwf)
    as (leaf & Hspec & Hrange & _ & Hrun).
  exists leaf. repeat split; try assumption; try lia.
  intros l (idx' & Hwalk' & ->).
  destruct Hspec as (idx & Hwalk & ->).
  now rewrite (spec_walk_deterministic _ _ _ _ _ Hwalk' Hwalk).
Qed.

Lemma C2_witness :
  exists leaf_index,
    spec_traverse (nodes scenario_A) [5] 0 leaf_index /\
    (forall l, spec_traverse (nodes scenario_A) [5] 0 l -> l = leaf_index) /\
    0 <= leaf_index < n_leaves scenario_A /\
    forall fuel, (1 <= fuel)%nat ->
      eml_trees_predict_tree fuel scenario_A 0 (Some [5]) 1 = Done leaf_index.
Proof.
  apply (proj1 C2_predict_tree_follows_spec_traversal scenario_A [5] 1 1%nat 0).
  - vm_compute. discriminate.
  - simpl. lia.
  - reflexivity.
Defined.

(** ** Loops *)

Lemma obind_Done_inv {A B} (c : outcome A) (k : A -> outcome B) (b : B) :
  obind c k = Done b -> exists a, c = Done a /\ k a = Done b.
Proof.
  destruct c as [a | |]; cbn [obind]; intros H; try discriminate.
  exists a. split; [reflexivity | exact H].
Qed.

Lemma store_Done_inv {A} (a a' : list A) (i : Z) (x : A) :
  store a i x = Done a' ->
  0 <= i < Z.of_nat (length a) /\ a' = <[Z.to_nat i := x]> a.
Proof.
  unfold store.
  destruct (Z.leb_spec 0 i); [| discriminate].
  destruct (Z.ltb_spec i (Z.of_nat (length a))); [| discriminate].
  intros [= <-]. split; [lia | reflexivity].
Qed.

(** Total correctness of a loop from an invariant. *)
Lemma for_from_total {St} (P : Z -> St -> Prop) (body : Z -> St -> outcome St) :
  forall (todo : nat) (i : Z) (s : St),
    P i s ->
    (forall j t, i <= j < i + Z.of_nat todo -> P j t ->
                 exists t', body j t = Done t' /\ P (j + 1) t') ->
    exists s', for_from todo i body s = Done s' /\ P (i + Z.of_nat todo) s'.
Proof.
  induction todo as [| todo IH]; intros i s HP Hbody.
  - exists s. split; [reflexivity |]. now rewrite Z.add_0_r.
  - destruct (Hbody i s) as (t & Ht & HPt); [lia | assumption |].
    destruct (IH (i + 1) t HPt) as (s' & Hs' & HPs').
    { intros j u Hj. apply Hbody. lia. }
    exists s'. split.
    + cbn [for_from]. rewrite Ht. exact Hs'.
    + replace (i + Z.of_nat (S todo)) with (i + 1 + Z.of_nat todo) by lia.
      exact HPs'.
Qed.

(** Partial correctness of a loop from an invariant. *)
Lemma for_from_partial {St} (P : Z -> St -> Prop) (body : Z -> St -> outcome St) :
  forall (todo : nat) (i : Z) (s s' : St),
    P i s ->
    (forall j t t', i <= j < i + Z.of_nat todo -> P j t ->
                    body j t = Done t' -> P (j + 1) t') ->
    for_from todo i body s = Done s' ->
    P (i + Z.of_nat todo) s'.
Proof.
  induction todo as [| todo IH]; intros i s s' HP Hbody Hrun.
  - injection Hrun as <-. now rewrite Z.add_0_r.
  - cbn [for_from] in Hrun.
    apply obind_Done_inv in Hrun as (t & Ht & Hrun).
    replace (i + Z.of_nat (S todo)) with (i + 1 + Z.of_nat todo) by lia.
    apply (IH (i + 1) t s'); [| | exact Hrun].
    + apply (Hbody i s t); [lia | assumption | assumption].
    + intros j u u' Hj. apply Hbody. lia.
Qed.

(** The zero-fill of lines 127-129. *)
Lemma zero_fill_from (todo : nat) :
  forall (i : nat) (rest : list f32),
    for_from todo (Z.of_nat i) (fun i out => store out i f32_zero)
      (replicate i f32_zero ++ rest) =
    if decide (todo <= length rest)%nat
    then Done (replicate (i + todo) f32_zero ++ drop todo rest)
    else Undefined.
Proof.
  induction todo as [| todo IH]; intros i rest.
  - cbn [for_from]. rewrite Nat.add_0_r, drop_0.
    destruct (decide (0 <= length rest)%nat); [reflexivity | lia].
  - cbn [for_from]. destruct rest as [| x rest].
    + unfold store. rewrite length_app, length_replicate. cbn [length].
      destruct (Z.leb_spec 0 (Z.of_nat i)); [| lia].
      destruct (Z.ltb_spec (Z.of_nat i) (Z.of_nat (i + 0))); [lia |].
      cbn [andb obind].
      destruct (decide (S todo <= 0)%nat); [lia | reflexivity].
    + rewrite store_Done
        by (rewrite length_app, length_replicate; cbn [length]; lia).
      cbn [obind]. rewrite Nat2Z.id.
      rewrite insert_app_r_alt by (rewrite length_replicate; lia).
      rewrite length_replicate, Nat.sub_diag. cbn [list_insert insert].
      replace (replicate i f32_zero ++ f32_zero :: rest)
        with (replicate (S i) f32_zero ++ rest)
        by (rewrite replicate_S_end, <- app_assoc; reflexivity).
      replace (Z.of_nat i + 1) with (Z.of_nat (S i)) by lia.
      rewrite IH. cbn [length drop].
      replace (S i + todo)%nat with (i + S todo)%nat by lia.
      destruct (decide (todo <= length rest)%nat),
               (decide (S todo <= S (length rest))%nat);
        try lia; reflexivity.
Qed.

Lemma zero_fill_loop (out : list f32) (out_length : Z) :
  for_loop out_length (fun i out => store out i f32_zero) out =
  if decide (out_length <= Z.of_nat (length out))
  then Done (replicate (Z.to_nat out_length) f32_zero
             ++ drop (Z.to_nat out_length) out)
  else Undefined.
Proof.
  unfold for_loop.
  pose proof (zero_fill_from (Z.to_nat out_length) 0 out) as H.
  change (Z.of_nat 0) with 0 in H.
  cbn [replicate app Nat.add] in H. rewrite H.
  destruct (decide (Z.to_nat out_length <= length out)%nat),
           (decide (out_length <= Z.of_nat (length out)));
    try lia; reflexivity.
Qed.

(** ** Argument checks *)

(** C4: [eml_trees_predict] returns [-EmlTreesErrorLength] when
    [features_length] differs from [n_features], and when [n_classes] exceeds
    [EMTREES_MAX_CLASSES = 30]; it does so whatever the nodes, the roots and
    the feature pointer are and without fuel, so no tree is traversed. *)
Theorem C4_predict_length_error fuel forest features features_length :
  features_length <> n_features forest \/ n_classes forest > 30 ->
  eml_trees_predict fuel forest features features_length
  = Done (- EmlTreesError_code EmlTreesErrorLength).
Proof.
  intros H. unfold eml_trees_predict.
  destruct (Z.eqb_spec features_length (n_features forest)) as [Heq | Hne];
    cbn [negb]; [| reflexivity].
  destruct H as [H | H]; [contradiction |].
  rewrite Z.gtb_ltb.
  destruct (Z.ltb_spec EMTREES_MAX_CLASSES (n_classes forest)) as [Hlt | Hge];
    [reflexivity |].
  unfold EMTREES_MAX_CLASSES in Hge. lia.
Qed.

Lemma C4_witness :
  eml_trees_predict 0 scenario_A None 2
  = Done (- EmlTreesError_code EmlTreesErrorLength).
Proof.
  apply (C4_predict_length_error 0 scenario_A None 2).
  left. simpl. lia.
Defined.

(** C9: [eml_trees_predict_proba] answers a null [features] pointer and a
    null [out] pointer with [EmlUninitialized], and an [out_length] other
    than [n_classes] with [EmlSizeMismatch]; in the three cases the output
    buffer is returned as it was passed, not even zero-filled. *)
Theorem C9_predict_proba_preconditions
    fuel self features features_length out out_length :
  (features = None ->
   eml_trees_predict_proba fuel self features features_length out out_length
   = Done (EmlUninitialized, out)) /\
  (out = None ->
   eml_trees_predict_proba fuel self features features_length out out_length
   = Done (EmlUninitialized, out)) /\
  (is_Some features -> is_Some out -> out_length <> n_classes self ->
   eml_trees_predict_proba fuel self features features_length out out_length
   = Done (EmlSizeMismatch, out)).
Proof.
  unfold eml_trees_predict_proba, EML_PRECONDITION, eml_trees_outputs_proba.
  repeat split.
  - intros ->. reflexivity.
  - intros ->. destruct features; reflexivity.
  - intros [fs ->] [buf ->] Hne.
    rewrite !bool_decide_eq_true_2 by eauto.
    destruct (Z.eqb_spec out_length (n_classes self)); [contradiction |].
    reflexivity.
Qed.

Lemma C9_witness :
  eml_trees_predict_proba 0 scenario_A None 1 (Some [f32_nan; f32_nan]) 2
  = Done (EmlUninitialized, Some [f32_nan; f32_nan]) /\
  eml_trees_predict_proba 0 scenario_A (Some [5]) 1 None 2
  = Done (EmlUninitialized, None) /\
  eml_trees_predict_proba 0 scenario_A (Some [5]) 1 (Some [f32_nan]) 1
  = Done (EmlSizeMismatch, Some [f32_nan]).
Proof.
  split; [| split].
  - apply (proj1 (C9_predict_proba_preconditions
                    0 scenario_A None 1 (Some [f32_nan; f32_nan]) 2)).
    reflexivity.
  - apply (proj1 (proj2 (C9_predict_proba_preconditions
                           0 scenario_A (Some [5]) 1 None 2))).
    reflexivity.
  - apply (proj2 (proj2 (C9_predict_proba_preconditions
                           0 scenario_A (Some [5]) 1 (Some [f32_nan]) 1))).
    + eexists; reflexivity.
    + eexists; reflexivity.
    + simpl. lia.
Defined.

(** C10: when [eml_trees_predict_proba] answers [EmlUnsupported], the model's
    [leaf_bits] is neither 0 nor 8 and every element of [out[0..out_length)]
    is zero; and a model with such [leaf_bits] does get this answer, with the
    first [n_classes] elements zeroed and the rest of the buffer as it was. *)
Theorem C10_unsupported_leaves_buffer_zeroed :
  (forall fuel self features features_length out out_length res,
     eml_trees_predict_proba fuel self features features_length out out_length
     = Done (EmlUnsupported, res) ->
     leaf_bits self <> 0 /\ leaf_bits self <> 8 /\
     exists buf,
       res = Some buf /\
       forall i, 0 <= i < out_length -> buf !! Z.to_nat i = Some f32_zero) /\
  (forall fuel self feats features_length buf,
     leaf_bits self <> 0 -> leaf_bits self <> 8 ->
     n_classes self <= Z.of_nat (length buf) ->
     eml_trees_predict_proba fuel self (Some feats) features_length
       (Some buf) (n_classes self)
     = Done (EmlUnsupported,
             Some (replicate (Z.to_nat (n_classes self)) f32_zero
                   ++ drop (Z.to_nat (n_classes self)) buf))).
Proof.
  split.
  - intros fuel self features fl out ol res.
    unfold eml_trees_predict_proba, EML_PRECONDITION, eml_trees_outputs_proba.
    destruct features as [feats |]; [| intros [=]].
    destruct out as [buf |]; [| intros [=]].
    rewrite !bool_decide_eq_true_2 by eauto.
    destruct (Z.eqb_spec ol (n_classes self)) as [Hol | _]; [| intros [=]].
    cbn [deref obind]. unfold predict_proba_accumulate.
    rewrite zero_fill_loop.
    destruct (decide (ol <= Z.of_nat (length buf))) as [Hlen |];
      [| intros [=]].
    cbn [obind].
    destruct (Z.eqb_spec (leaf_bits self) 0) as [| Hne0].
    { intros H. destruct (for_loop _ _ _) as [acc | |]; cbn [obind] in H;
        try discriminate H.
      destruct (predict_proba_mean _ _ _); cbn [obind] in H; discriminate H. }
    destruct (Z.eqb_spec (leaf_bits self) 8) as [| Hne8].
    { intros H. destruct (for_loop _ _ _) as [acc | |]; cbn [obind] in H;
        try discriminate H.
      destruct (predict_proba_mean _ _ _); cbn [obind] in H; discriminate H. }
    cbn [obind]. intros [= <-].
    split; [assumption | split; [assumption |]].
    eexists. split; [reflexivity |].
    intros i Hi. rewrite lookup_app_l by (rewrite length_replicate; lia).
    apply lookup_replicate_2. lia.
  - intros fuel self feats fl buf Hne0 Hne8 Hlen.
    unfold eml_trees_predict_proba, EML_PRECONDITION, eml_trees_outputs_proba.
    rewrite !bool_decide_eq_true_2 by eauto.
    rewrite Z.eqb_refl. cbn [deref obind]. unfold predict_proba_accumulate.
    rewrite zero_fill_loop.
    destruct (decide (n_classes self <= Z.of_nat (length buf))); [| lia].
    cbn [obind].
    destruct (Z.eqb_spec (leaf_bits self) 0); [contradiction |].
    destruct (Z.eqb_spec (leaf_bits self) 8); [contradiction |].
    reflexivity.
Qed.

Lemma C10_witness :
  leaf_bits unsupported_model <> 0 /\ leaf_bits unsupported_model <> 8 /\
  exists buf,
    Some [f32_zero; f32_zero; f32_one] = Some buf /\
    forall i, 0 <= i < 2 -> buf !! Z.to_nat i = Some f32_zero.
Proof.
  apply (proj1 C10_unsupported_leaves_buffer_zeroed
           0%nat unsupported_model (Some [5]) 1
           (Some [f32_nan; f32_one; f32_one]) 2).
  reflexivity.
Defined.

(** ** The soft vote divides integers *)

(** C1 (the code departs from the claim): in scenario C the selected leaf
    holds the bytes [{200, 55}], and [eml_trees_predict_proba] returns
    [{0, 0}]: [leaf_data[class_no] / 255] is a division of two [int]s, which
    is 0 for every byte below 255. The proportions [200/255] and [55/255] as
    [float]s are different values. *)
Theorem C1_soft_vote_integer_division :
  eml_trees_predict_proba 1 scenario_C (Some [5]) 1
    (Some [f32_nan; f32_nan]) 2
  = Done (EmlOk, Some [f32_zero; f32_zero]) /\
  f32_div (f32_of_Z 200) (f32_of_Z 255) = S754_finite false 13158601 (-24) /\
  f32_div (f32_of_Z 55) (f32_of_Z 255) = S754_finite false 14474461 (-26) /\
  f32_zero <> S754_finite false 13158601 (-24) /\
  f32_zero <> S754_finite false 14474461 (-26).
Proof.
  repeat split; try reflexivity; discriminate.
Qed.

(** ** Errors of the regression *)

(** C5, as the code has it: [eml_trees_regress] answers [EmlSizeMismatch]
    when [out_length < 1], whatever [leaf_bits] is; with [out_length >= 1] it
    answers [EmlUnsupported] for every model whose [leaf_bits] is not 32, and
    it answers [EmlOk] only when [leaf_bits] is 32. [eml_trees_regress1]
    returns NaN whenever [eml_trees_regress] fails, so for every model whose
    [leaf_bits] is not 32. *)
Theorem C5_regress_error_kinds :
  (forall fuel forest features features_length out out_length,
     out_length < 1 ->
     eml_trees_regress fuel forest features features_length out out_length
     = Done (EmlSizeMismatch, out)) /\
  (forall fuel forest features features_length out out_length,
     1 <= out_length -> leaf_bits forest <> 32 ->
     eml_trees_regress fuel forest features features_length out out_length
     = Done (EmlUnsupported, out)) /\
  (forall fuel forest features features_length out out_length res,
     eml_trees_regress fuel forest features features_length out out_length
     = Done (EmlOk, res) ->
     leaf_bits forest = 32) /\
  (forall fuel forest features features_length err res,
     eml_trees_regress fuel forest features features_length
       (Some [f32_zero]) 1 = Done (err, res) ->
     err <> EmlOk ->
     eml_trees_regress1 fuel forest features features_length = Done f32_nan) /\
  (forall fuel forest features features_length,
     leaf_bits forest <> 32 ->
     eml_trees_regress1 fuel forest features features_length = Done f32_nan).
Proof.
  assert (Hunsupported :
    forall fuel forest features features_length out out_length,
      1 <= out_length -> leaf_bits forest <> 32 ->
      eml_trees_regress fuel forest features features_length out out_length
      = Done (EmlUnsupported, out)).
  { intros fuel forest features fl out ol Hol Hbits. unfold eml_trees_regress.
    destruct (Z.ltb_spec ol 1); [lia |].
    destruct (Z.eqb_spec (leaf_bits forest) 32); [contradiction |].
    reflexivity. }
  repeat split.
  - intros fuel forest features fl out ol Hol. unfold eml_trees_regress.
    destruct (Z.ltb_spec ol 1); [reflexivity | lia].
  - exact Hunsupported.
  - intros fuel forest features fl out ol res. unfold eml_trees_regress.
    destruct (Z.ltb_spec ol 1); [intros [=] |].
    destruct (Z.eqb_spec (leaf_bits forest) 32); [easy | intros [=]].
  - intros fuel forest features fl err res Hrun Herr.
    unfold eml_trees_regress1. rewrite Hrun. cbn [obind].
    destruct err; try reflexivity. contradiction.
  - intros fuel forest features fl Hbits. unfold eml_trees_regress1.
    rewrite Hunsupported by (assumption || lia). reflexivity.
Qed.

Lemma C5_witness :
  eml_trees_regress 0 scenario_A (Some [5]) 1 (Some [f32_nan]) 0
  = Done (EmlSizeMismatch, Some [f32_nan]) /\
  eml_trees_regress 0 scenario_A (Some [5]) 1 (Some [f32_nan]) 1
  = Done (EmlUnsupported, Some [f32_nan]) /\
  leaf_bits no_trees_regressor = 32 /\
  eml_trees_regress1 0 scenario_A (Some [5]) 1 = Done f32_nan /\
  eml_trees_regress1 0 scenario_C (Some [5]) 1 = Done f32_nan.
Proof.
  pose proof C5_regress_error_kinds as (H1 & H2 & H3 & H4 & H5).
  split; [| split; [| split; [| split]]].
  - apply (H1 0%nat scenario_A (Some [5]) 1 (Some [f32_nan]) 0). lia.
  - apply (H2 0%nat scenario_A (Some [5]) 1 (Some [f32_nan]) 1);
      [lia | simpl; lia].
  - apply (H3 0%nat no_trees_regressor (Some [5]) 1 (Some [f32_nan]) 1
              (Some [f32_nan])).
    reflexivity.
  - apply (H4 0%nat scenario_A (Some [5]) 1 EmlUnsupported (Some [f32_zero]));
      [reflexivity | discriminate].
  - apply (H5 0%nat scenario_C (Some [5]) 1). simpl. lia.
Defined.

(** The claim C5 as stated fails twice. With [out_length = 0] a model whose
    [leaf_bits] is 0 gets [EmlSizeMismatch], not [EmlUnsupported]. And a
    model without trees has [leaf_bits = 32] and [eml_trees_regress] succeeds
    on it, the mean being [0 / 0]: [eml_trees_regress1] returns NaN although
    the regression did not fail. *)
Lemma C5_counterexample :
  (leaf_bits scenario_A <> 32 /\
   eml_trees_regress 0 scenario_A (Some [5]) 1 (Some [f32_zero]) 0
   = Done (EmlSizeMismatch, Some [f32_zero]) /\
   EmlSizeMismatch <> EmlUnsupported) /\
  (eml_trees_regress 0 no_trees_regressor (Some [5]) 1 (Some [f32_zero]) 1
   = Done (EmlOk, Some [f32_nan]) /\
   eml_trees_regress1 0 no_trees_regressor (Some [5]) 1 = Done f32_nan).
Proof.
  repeat split; try reflexivity; discriminate.
Qed.

(** ** Well-formed forests *)

Lemma forest_wfb_wf forest feats depth :
  forest_wfb forest feats depth = true -> forest_wf forest feats depth.
Proof.
  unfold forest_wfb. intros H.
  repeat (apply andb_prop in H as [H ?]).
  constructor; try lia.
  intros i root Hi Hroot.
  match goal with
  | Hall : forallb _ _ = true |- _ =>
      rewrite forallb_forall in Hall; apply Hall
  end.
  apply list_elem_of_In, (list_elem_of_lookup_2 _ i).
  rewrite lookup_take_lt by assumption. exact Hroot.
Qed.

Lemma load_float_Done (bytes : list Z) (offset : Z) :
  0 <= offset -> offset + 4 <= Z.of_nat (length bytes) ->
  exists v, load_float bytes offset = Done v.
Proof.
  intros H0 Hlen. unfold load_float.
  destruct (lookup_lt_is_Some_2 bytes (Z.to_nat offset)) as [b0 Hb0]; [lia |].
  destruct (lookup_lt_is_Some_2 bytes (Z.to_nat (offset + 1))) as [b1 Hb1];
    [lia |].
  destruct (lookup_lt_is_Some_2 bytes (Z.to_nat (offset + 2))) as [b2 Hb2];
    [lia |].
  destruct (lookup_lt_is_Some_2 bytes (Z.to_nat (offset + 3))) as [b3 Hb3];
    [lia |].
  rewrite (load_Done _ _ _ H0 Hb0). cbn [obind].
  rewrite (load_Done bytes (offset + 1) b1) by (lia || assumption).
  cbn [obind].
  rewrite (load_Done bytes (offset + 2) b2) by (lia || assumption).
  cbn [obind].
  rewrite (load_Done bytes (offset + 3) b3) by (lia || assumption).
  cbn [obind].
  eexists. reflexivity.
Qed.

(** ** Loops over the trees of a well-formed forest *)

Section WellFormedForest.

Variables (forest : EmlTrees) (feats : list Z) (depth : nat).
Variable features_length : Z.
Hypothesis Hwf : forest_wf forest feats depth.

Lemma tree_of_forest (i : Z) :
  0 <= i < n_trees forest ->
  exists root leaf,
    tree_roots forest !! Z.to_nat i = Some root /\
    spec_traverse (nodes forest) feats root leaf /\
    0 <= leaf < n_leaves forest /\ leaf <= 32767 /\
    forall fuel, (depth <= fuel)%nat ->
      eml_trees_predict_tree fuel forest root (Some feats) features_length
      = Done leaf.
Proof.
  intros Hi.
  destruct (lookup_lt_is_Some_2 (tree_roots forest) (Z.to_nat i))
    as [root Hroot]; [pose proof (wf_trees _ _ _ Hwf); lia |].
  assert (Htree : tree_wfb forest depth root = true).
  { apply (wf_roots _ _ _ Hwf (Z.to_nat i)); [lia | assumption]. }
  destruct (predict_tree_wf forest feats depth root features_length
              (wf_nodes _ _ _ Hwf) (wf_feats _ _ _ Hwf) Htree)
    as (leaf & Hspec & Hrange & Hsmall & Hrun).
  exists root, leaf. repeat split; try assumption; lia.
Qed.

(** *** The loop of [eml_trees_regress] *)

Section Regression.

Hypothesis Hbits : leaf_bits forest = 32.

Lemma regress_from_wf (todo : nat) :
  forall (i : nat) (acc : f32),
    Z.of_nat (i + todo) <= n_trees forest ->
    exists ls vals,
      Forall2 (spec_traverse (nodes forest) feats)
        (take todo (drop i (tree_roots forest))) ls /\
      Forall2 (fun l v => load_float (leaves forest) (l * 4) = Done v)
        ls vals /\
      forall fuel, (depth <= fuel)%nat ->
        for_from todo (Z.of_nat i)
          (regress_tree fuel forest (Some feats) features_length) acc
        = Done (foldl f32_add acc vals).
Proof.
  induction todo as [| todo IH]; intros i acc Hi.
  - exists [], []. rewrite take_0. repeat split; constructor.
  - destruct (tree_of_forest (Z.of_nat i) ltac:(lia))
      as (root & leaf & Hroot & Hspec & Hleaf & Hsmall & Hrun).
    rewrite Nat2Z.id in Hroot.
    destruct (load_float_Done (leaves forest) (leaf * 4)) as [v Hv];
      [lia | |].
    { pose proof (wf_leaves _ _ _ Hwf) as Hlen.
      unfold bytes_per_leaf in Hlen. rewrite Hbits in Hlen.
      cbn in Hlen. lia. }
    destruct (IH (S i) (f32_add acc v) ltac:(lia))
      as (ls & vals & Hls & Hvals & Hloop).
    exists (leaf :: ls), (v :: vals).
    rewrite (drop_S _ _ _ Hroot). cbn [take].
    split; [constructor; assumption |].
    split; [constructor; assumption |].
    intros fuel Hfuel. cbn [for_from]. unfold regress_tree at 1.
    rewrite (load_Done (tree_roots forest) (Z.of_nat i) root)
      by (lia || (rewrite Nat2Z.id; exact Hroot)).
    cbn [obind]. rewrite (Hrun fuel Hfuel). cbn [obind].
    rewrite int32_op_Done by (unfold INT32_MIN, INT32_MAX; lia).
    cbn [obind]. rewrite Hv. cbn [obind foldl].
    replace (Z.of_nat i + 1) with (Z.of_nat (S i)) by lia.
    apply Hloop. exact Hfuel.
Qed.

Lemma regress_wf :
  exists ls vals,
    Forall2 (spec_traverse (nodes forest) feats)
      (take (Z.to_nat (n_trees forest)) (tree_roots forest)) ls /\
    Forall2 (fun l v => load_float (leaves forest) (l * 4) = Done v)
      ls vals /\
    forall fuel x buf out_length,
      (depth <= fuel)%nat -> 1 <= out_length ->
      eml_trees_regress fuel forest (Some feats) features_length
        (Some (x :: buf)) out_length
      = Done (EmlOk,
              Some (f32_div (foldl f32_add f32_zero vals)
                      (f32_of_Z (n_trees forest)) :: buf)).
Proof.
  destruct (regress_from_wf (Z.to_nat (n_trees forest)) 0 f32_zero)
    as (ls & vals & Hls & Hvals & Hloop).
  { pose proof (wf_trees _ _ _ Hwf). lia. }
  exists ls, vals. rewrite drop_0 in Hls.
  split; [assumption | split; [assumption |]].
  intros fuel x buf ol Hfuel Hol. unfold eml_trees_regress.
  destruct (Z.ltb_spec ol 1); [lia |].
  rewrite Hbits. cbn [Z.eqb Pos.eqb negb]. unfold for_loop.
  change 0 with (Z.of_nat 0) at 1. rewrite (Hloop fuel Hfuel).
  reflexivity.
Qed.

End Regression.

(** *** The loop of the majority vote *)

Section MajorityVote.

Hypothesis Hbits : leaf_bits forest = 0.
Hypothesis Hclass : forall (l : nat) (b : Z),
    leaves forest !! l = Some b -> 0 <= b < n_classes forest.

(** Every tree casts one unit vote, for the class at its leaf. *)
Lemma majority_from_wf (todo : nat) :
  forall (i : nat) (out : list f32),
    Z.of_nat (i + todo) <= n_trees forest ->
    n_classes forest <= Z.of_nat (length out) ->
    exists cs,
      Forall2 (fun root c =>
                 exists l, spec_traverse (nodes forest) feats root l /\
                           0 <= l /\
                           leaves forest !! Z.to_nat l = Some c)
        (take todo (drop i (tree_roots forest))) cs /\
      Forall (fun c => 0 <= c < n_classes forest) cs /\
      forall fuel, (depth <= fuel)%nat ->
        for_from todo (Z.of_nat i)
          (majority_vote_tree fuel forest (Some feats) features_length)
          out
        = Done (foldl unit_vote out cs).
Proof.
  induction todo as [| todo IH]; intros i out Hi Hout.
  - exists []. rewrite take_0. repeat split; constructor.
  - destruct (tree_of_forest (Z.of_nat i) ltac:(lia))
      as (root & leaf & Hroot & Hspec & Hleaf & Hsmall & Hrun).
    rewrite Nat2Z.id in Hroot.
    destruct (lookup_lt_is_Some_2 (leaves forest) (Z.to_nat leaf))
      as [c Hc].
    { pose proof (wf_leaves _ _ _ Hwf) as Hlen.
      unfold bytes_per_leaf in Hlen. rewrite Hbits in Hlen.
      cbn in Hlen. lia. }
    pose proof (Hclass _ _ Hc) as Hcrange.
    destruct (lookup_lt_is_Some_2 out (Z.to_nat c)) as [cur Hcur];
      [lia |].
    destruct (IH (S i) (unit_vote out c)) as (cs & Hcs & Hrange & Hloop).
    { lia. }
    { unfold unit_vote. rewrite Hcur, length_insert. exact Hout. }
    exists (c :: cs). rewrite (drop_S _ _ _ Hroot). cbn [take].
    split.
    { constructor; [| assumption].
      exists leaf. repeat split; (assumption || lia). }
    split; [constructor; assumption |].
    intros fuel Hfuel. cbn [for_from]. unfold majority_vote_tree at 1.
    rewrite (load_Done (tree_roots forest) (Z.of_nat i) root)
      by (lia || (rewrite Nat2Z.id; exact Hroot)).
    cbn [obind]. rewrite (Hrun fuel Hfuel). cbn [obind].
    rewrite (load_Done (leaves forest) leaf c) by (lia || assumption).
    cbn [obind].
    rewrite (load_Done out c cur) by (lia || assumption). cbn [obind].
    rewrite store_Done by (apply lookup_lt_Some in Hcur; lia).
    cbn [obind foldl].
    replace (<[Z.to_nat c := f32_add cur f32_one]> out)
      with (unit_vote out c) by (unfold unit_vote; now rewrite Hcur).
    replace (Z.of_nat i + 1) with (Z.of_nat (S i)) by lia.
    apply Hloop. exact Hfuel.
Qed.

Lemma majority_accumulate_wf (buf : list f32) :
  n_classes forest <= Z.of_nat (length buf) ->
  exists cs,
    Forall2 (fun root c =>
               exists l, spec_traverse (nodes forest) feats root l /\
                         0 <= l /\
                         leaves forest !! Z.to_nat l = Some c)
      (take (Z.to_nat (n_trees forest)) (tree_roots forest)) cs /\
    Forall (fun c => 0 <= c < n_classes forest) cs /\
    forall fuel, (depth <= fuel)%nat ->
      predict_proba_accumulate fuel forest (Some feats) features_length
        buf (n_classes forest)
      = Done (EmlOk,
              foldl unit_vote
                (replicate (Z.to_nat (n_classes forest)) f32_zero
                 ++ drop (Z.to_nat (n_classes forest)) buf) cs).
Proof.
  intros Hbuf.
  destruct (majority_from_wf (Z.to_nat (n_trees forest)) 0
              (replicate (Z.to_nat (n_classes forest)) f32_zero
               ++ drop (Z.to_nat (n_classes forest)) buf))
    as (cs & Hcs & Hrange & Hloop).
  { pose proof (wf_trees _ _ _ Hwf). lia. }
  { rewrite length_app, length_replicate, length_drop. lia. }
  exists cs. rewrite drop_0 in Hcs.
  split; [assumption | split; [assumption |]].
  intros fuel Hfuel. unfold predict_proba_accumulate.
  rewrite zero_fill_loop.
  destruct (decide (n_classes forest <= Z.of_nat (length buf))); [| lia].
  cbn [obind]. rewrite Hbits. cbn [Z.eqb]. unfold for_loop.
  change 0 with (Z.of_nat 0) at 1. rewrite (Hloop fuel Hfuel).
  reflexivity.
Qed.

End MajorityVote.

End WellFormedForest.

(** ** The regression *)

(** C7: for a well-formed regression model ([leaf_bits = 32]) and a
    non-empty buffer, [eml_trees_regress] succeeds given fuel for the depth
    of the trees; [out[0]] is then the sum of the [float]s decoded at the
    leaves that the trees reach, divided by [n_trees], and every other
    element of the buffer is what it was. And whenever a call succeeds, on
    any model, the buffer it returns is the one it was given with [out[0]]
    replaced by the sum of its loop divided by [n_trees]. *)
Theorem C7_regress_writes_mean_to_out0 :
  (forall forest feats features_length depth buf out_length,
     forest_wfb forest feats depth = true ->
     leaf_bits forest = 32 ->
     1 <= out_length ->
     buf <> [] ->
     exists ls vals,
       Forall2 (spec_traverse (nodes forest) feats)
         (take (Z.to_nat (n_trees forest)) (tree_roots forest)) ls /\
       Forall2 (fun l v => load_float (leaves forest) (l * 4) = Done v)
         ls vals /\
       forall fuel, (depth <= fuel)%nat ->
         exists out',
           eml_trees_regress fuel forest (Some feats) features_length
             (Some buf) out_length = Done (EmlOk, Some out') /\
           out' !! 0%nat
           = Some (f32_div (foldl f32_add f32_zero vals)
                     (f32_of_Z (n_trees forest))) /\
           length out' = length buf /\
           forall i : nat, (0 < i)%nat -> out' !! i = buf !! i) /\
  (forall fuel forest features features_length out out_length res,
     eml_trees_regress fuel forest features features_length out out_length
     = Done (EmlOk, res) ->
     exists buf sum,
       out = Some buf /\ buf <> [] /\
       for_loop (n_trees forest)
         (regress_tree fuel forest features features_length) f32_zero
       = Done sum /\
       res = Some (<[0%nat := f32_div sum (f32_of_Z (n_trees forest))]> buf)).
Proof.
  split.
  - intros forest feats features_length depth buf out_length
      Hwf Hbits Hol Hbuf.
    apply forest_wfb_wf in Hwf.
    destruct (regress_wf forest feats depth features_length Hwf Hbits)
      as (ls & vals & Hls & Hvals & Hrun).
    exists ls, vals. split; [assumption | split; [assumption |]].
    intros fuel Hfuel. destruct buf as [| x buf]; [contradiction |].
    eexists. split; [apply Hrun; assumption |].
    split; [reflexivity | split; [reflexivity |]].
    intros [| i] Hi; [lia | reflexivity].
  - intros fuel forest features features_length out out_length res.
    unfold eml_trees_regress.
    destruct (out_length <? 1); [discriminate |].
    destruct (negb (leaf_bits forest =? 32)); [discriminate |].
    intros H. apply obind_Done_inv in H as (sum & Hsum & H).
    destruct out as [buf |]; [| discriminate H]. cbn [deref obind] in H.
    apply obind_Done_inv in H as (buf' & Hstore & H).
    apply store_Done_inv in Hstore as [Hlen ->]. injection H as <-.
    exists buf, sum. repeat split; try assumption.
    intros ->. cbn [length] in Hlen. lia.
Qed.

Lemma C7_witness :
  exists ls vals,
    Forall2 (spec_traverse (nodes scenario_regression) [15])
      (take (Z.to_nat (n_trees scenario_regression))
         (tree_roots scenario_regression)) ls /\
    Forall2 (fun l v => load_float (leaves scenario_regression) (l * 4)
                        = Done v) ls vals /\
    forall fuel, (1 <= fuel)%nat ->
      exists out',
        eml_trees_regress fuel scenario_regression (Some [15]) 1
          (Some [f32_nan; f32_one]) 2 = Done (EmlOk, Some out') /\
        out' !! 0%nat
        = Some (f32_div (foldl f32_add f32_zero vals)
                  (f32_of_Z (n_trees scenario_regression))) /\
        length out' = length [f32_nan; f32_one] /\
        forall i : nat, (0 < i)%nat -> out' !! i = [f32_nan; f32_one] !! i.
Proof.
  apply (proj1 C7_regress_writes_mean_to_out0
           scenario_regression [15] 1 1%nat [f32_nan; f32_one] 2).
  - reflexivity.
  - reflexivity.
  - lia.
  - discriminate.
Defined.

(** Scenario A with regression leaves, run: both trees reach leaf 1 on the
    features [[15]], and the mean of [2.5] and [2.5] is [2.5]; the second
    element of the buffer is untouched. *)
Example regress_scenario :
  eml_trees_regress 1 scenario_regression (Some [15]) 1
    (Some [f32_nan; f32_one]) 2
  = Done (EmlOk, Some [S754_finite false 10485760 (-22); f32_one]).
Proof. reflexivity. Qed.

(** C8: [eml_trees_regress] on a model with [leaf_bits = 32] is a function
    of the model and the feature vector alone: two calls that differ in the
    content and size of the output buffer, in [out_length >= 1] and in
    [features_length] give the same status and, on success, the same
    [out[0]]. For a well-formed model that observation is [EmlOk] with one
    value, the same for every buffer and every sufficient fuel. *)
Theorem C8_regress_deterministic :
  (forall fuel forest features fl1 fl2 buf1 buf2 ol1 ol2,
     leaf_bits forest = 32 ->
     buf1 <> [] -> buf2 <> [] -> 1 <= ol1 -> 1 <= ol2 ->
     regress_observation
       (eml_trees_regress fuel forest features fl1 (Some buf1) ol1)
     = regress_observation
         (eml_trees_regress fuel forest features fl2 (Some buf2) ol2)) /\
  (forall forest feats depth,
     forest_wfb forest feats depth = true ->
     leaf_bits forest = 32 ->
     exists v,
       forall fuel fl buf ol,
         (depth <= fuel)%nat -> buf <> [] -> 1 <= ol ->
         regress_observation
           (eml_trees_regress fuel forest (Some feats) fl (Some buf) ol)
         = Done (EmlOk, Some v)).
Proof.
  split.
  - intros fuel forest features fl1 fl2 buf1 buf2 ol1 ol2 Hbits H1 H2 Ho1 Ho2.
    unfold eml_trees_regress.
    destruct (Z.ltb_spec ol1 1); [lia |].
    destruct (Z.ltb_spec ol2 1); [lia |].
    rewrite Hbits. cbn [Z.eqb Pos.eqb negb].
    change (regress_tree fuel forest features fl2)
      with (regress_tree fuel forest features fl1).
    destruct (for_loop _ _ _) as [sum | |]; cbn [obind]; try reflexivity.
    destruct buf1 as [| x1 buf1]; [contradiction |].
    destruct buf2 as [| x2 buf2]; [contradiction |].
    reflexivity.
  - intros forest feats depth Hwf Hbits. apply forest_wfb_wf in Hwf.
    destruct (regress_wf forest feats depth 0 Hwf Hbits)
      as (ls & vals & _ & _ & Hrun).
    eexists. intros fuel fl buf ol Hfuel Hbuf Hol.
    destruct buf as [| x buf]; [contradiction |].
    change (eml_trees_regress fuel forest (Some feats) fl (Some (x :: buf)) ol)
      with (eml_trees_regress fuel forest (Some feats) 0 (Some (x :: buf)) ol).
    rewrite (Hrun fuel x buf ol Hfuel Hol). reflexivity.
Qed.

Lemma C8_witness :
  regress_observation
    (eml_trees_regress 1 scenario_regression (Some [5]) 1
       (Some [f32_nan]) 1)
  = regress_observation
      (eml_trees_regress 1 scenario_regression (Some [5]) 7
         (Some [f32_one; f32_zero]) 2).
Proof.
  apply (proj1 C8_regress_deterministic 1%nat scenario_regression (Some [5])
           1 7 [f32_nan] [f32_one; f32_zero] 1 2).
  - reflexivity.
  - discriminate.
  - discriminate.
  - lia.
  - lia.
Defined.

(** ** The order of [float]s *)

Lemma SFcompare_key (a b : f32) :
  SFcompare a b =
  match f32_key a, f32_key b with
  | Some (a1, a2, a3), Some (b1, b2, b3) =>
      Some match a1 ?= b1 with
           | Eq => match a2 ?= b2 with
                   | Eq => a3 ?= b3
                   | c => c
                   end
           | c => c
           end
  | _, _ => None
  end.
Proof.
  destruct a as [sa | sa | | sa ma ea], b as [sb | sb | | sb mb eb];
    try destruct sa; try destruct sb; try reflexivity.
  cbn [SFcompare f32_key]. change (-1 ?= -1) with Eq. cbv iota.
  rewrite Z.compare_opp, (Z.compare_antisym ea eb).
  destruct (ea ?= eb); reflexivity.
Qed.

Lemma f32_gt_key (a b : f32) :
  f32_gt a b = true <->
  exists ka kb, f32_key a = Some ka /\ f32_key b = Some kb /\ key_lt kb ka.
Proof.
  unfold f32_gt, SFltb. rewrite SFcompare_key.
  destruct (f32_key b) as [[[b1 b2] b3] |], (f32_key a) as [[[a1 a2] a3] |].
  2-4: split; [discriminate | intros (ka & kb & Ha & Hb & _); discriminate].
  split.
  - intros H. exists (a1, a2, a3), (b1, b2, b3).
    split; [reflexivity | split; [reflexivity |]]. unfold key_lt.
    destruct (Z.compare_spec b1 a1); try discriminate; [| lia].
    destruct (Z.compare_spec b2 a2); try discriminate; [| lia].
    destruct (Z.compare_spec b3 a3); try discriminate. lia.
  - intros (ka & kb & [= <-] & [= <-] & Hlt). unfold key_lt in Hlt.
    destruct (Z.compare_spec b1 a1); try reflexivity; try lia.
    destruct (Z.compare_spec b2 a2); try reflexivity; try lia.
    destruct (Z.compare_spec b3 a3); try reflexivity; lia.
Qed.

Lemma f32_ge_key (a b : f32) :
  f32_ge a b = true <->
  exists ka kb,
    f32_key a = Some ka /\ f32_key b = Some kb /\ (key_lt kb ka \/ kb = ka).
Proof.
  unfold f32_ge, SFleb. rewrite SFcompare_key.
  destruct (f32_key b) as [[[b1 b2] b3] |], (f32_key a) as [[[a1 a2] a3] |].
  2-4: split; [discriminate | intros (ka & kb & Ha & Hb & _); discriminate].
  split.
  - intros H. exists (a1, a2, a3), (b1, b2, b3).
    split; [reflexivity | split; [reflexivity |]]. unfold key_lt.
    destruct (Z.compare_spec b1 a1); try discriminate; [| lia].
    destruct (Z.compare_spec b2 a2); try discriminate; [| lia].
    destruct (Z.compare_spec b3 a3); try discriminate; [| lia].
    right. congruence.
  - intros (ka & kb & [= <-] & [= <-] & Hle). unfold key_lt in Hle.
    destruct Hle as [Hlt | [= -> -> ->]].
    + destruct (Z.compare_spec b1 a1); try reflexivity; try lia.
      destruct (Z.compare_spec b2 a2); try reflexivity; try lia.
      destruct (Z.compare_spec b3 a3); try reflexivity; lia.
    + now rewrite !Z.compare_refl.
Qed.

Lemma key_lt_trans (a b c : Z * Z * Z) : key_lt a b -> key_lt b c -> key_lt a c.
Proof.
  destruct a as [[a1 a2] a3], b as [[b1 b2] b3], c as [[c1 c2] c3].
  unfold key_lt. lia.
Qed.

Lemma key_lt_irrefl (a : Z * Z * Z) : ~ key_lt a a.
Proof. destruct a as [[a1 a2] a3]. unfold key_lt. lia. Qed.

Lemma f32_gt_trans (a b c : f32) :
  f32_gt a b = true -> f32_gt b c = true -> f32_gt a c = true.
Proof.
  rewrite !f32_gt_key.
  intros (ka & kb & Ha & Hb & Hab) (kb' & kc & Hb' & Hc & Hbc).
  rewrite Hb in Hb'. injection Hb' as <-.
  exists ka, kc. eauto using key_lt_trans.
Qed.

Lemma f32_ge_gt_trans (a b c : f32) :
  f32_ge a b = true -> f32_gt b c = true -> f32_gt a c = true.
Proof.
  rewrite f32_ge_key, !f32_gt_key.
  intros (ka & kb & Ha & Hb & Hab) (kb' & kc & Hb' & Hc & Hbc).
  rewrite Hb in Hb'. injection Hb' as <-.
  exists ka, kc. split; [assumption | split; [assumption |]].
  destruct Hab as [Hab | <-]; eauto using key_lt_trans.
Qed.

Lemma f32_gt_irrefl (a : f32) : f32_gt a a = false.
Proof.
  destruct (f32_gt a a) eqn:H; [| reflexivity].
  apply f32_gt_key in H as (ka & kb & Ha & Hb & Hlt).
  rewrite Ha in Hb. injection Hb as <-.
  now apply key_lt_irrefl in Hlt.
Qed.

(** ** The output buffer keeps its size *)

Ltac invert_binds H :=
  repeat (let x := fresh "x" in
          let Hx := fresh "Hx" in
          apply obind_Done_inv in H as (x & Hx & H)).

Lemma store_length {A} (a a' : list A) (i : Z) (x : A) :
  store a i x = Done a' -> length a' = length a.
Proof.
  intros H. apply store_Done_inv in H as [_ ->]. apply length_insert.
Qed.

Lemma for_from_length {A} (body : Z -> list A -> outcome (list A)) :
  (forall j t t', body j t = Done t' -> length t' = length t) ->
  forall todo i s s',
    for_from todo i body s = Done s' -> length s' = length s.
Proof.
  intros Hbody todo i s s' Hrun.
  apply (for_from_partial (fun _ t => length t = length s) body todo i s s');
    [reflexivity | | exact Hrun].
  intros j t t' _ Ht Hstep. rewrite <- Ht. eapply Hbody, Hstep.
Qed.

Lemma majority_vote_tree_length fuel self features fl i out out' :
  majority_vote_tree fuel self features fl i out = Done out' ->
  length out' = length out.
Proof.
  unfold majority_vote_tree. intros H. invert_binds H.
  eapply store_length, H.
Qed.

Lemma soft_vote_tree_length fuel self features fl i out out' :
  soft_vote_tree fuel self features fl i out = Done out' ->
  length out' = length out.
Proof.
  unfold soft_vote_tree, for_loop. intros H. invert_binds H.
  eapply for_from_length; [| exact H].
  clear. intros j t t' H. invert_binds H. eapply store_length, H.
Qed.

Lemma predict_proba_mean_length self out out_length out' :
  predict_proba_mean self out out_length = Done out' ->
  length out' = length out.
Proof.
  unfold predict_proba_mean, for_loop. intros H.
  eapply for_from_length; [| exact H].
  clear. intros j t t' H. invert_binds H. eapply store_length, H.
Qed.

Lemma predict_proba_accumulate_length
    fuel self features fl out out_length err acc :
  predict_proba_accumulate fuel self features fl out out_length
  = Done (err, acc) ->
  length acc = length out.
Proof.
  unfold predict_proba_accumulate, for_loop. intros H.
  apply obind_Done_inv in H as (zeroed & Hzero & H).
  assert (Hlen : length zeroed = length out).
  { eapply for_from_length; [| exact Hzero].
    intros j t t' Hs. eapply store_length, Hs. }
  rewrite <- Hlen.
  destruct (leaf_bits self =? 0).
  { invert_binds H. injection H as _ <-.
    eapply for_from_length; [| eassumption].
    intros j t t'. apply majority_vote_tree_length. }
  destruct (leaf_bits self =? 8).
  { invert_binds H. injection H as _ <-.
    eapply for_from_length; [| eassumption].
    intros j t t'. apply soft_vote_tree_length. }
  injection H as _ <-. reflexivity.
Qed.

Lemma predict_proba_Ok_inv
    fuel self features fl buf out_length votes :
  eml_trees_predict_proba fuel self features fl (Some buf) out_length
  = Done (EmlOk, votes) ->
  exists acc res,
    predict_proba_accumulate fuel self features fl buf out_length
    = Done (EmlOk, acc) /\
    predict_proba_mean self acc out_length = Done res /\
    votes = Some res /\ length res = length buf.
Proof.
  unfold eml_trees_predict_proba, EML_PRECONDITION. intros H.
  destruct (bool_decide (is_Some features)); [| discriminate].
  rewrite bool_decide_eq_true_2 in H by eauto.
  destruct (out_length =? eml_trees_outputs_proba self); [| discriminate].
  cbn [deref obind] in H.
  apply obind_Done_inv in H as ([err acc] & Hacc & H).
  destruct err; try discriminate H.
  apply obind_Done_inv in H as (res & Hres & H). injection H as <-.
  exists acc, res. repeat split; try assumption.
  rewrite (predict_proba_mean_length _ _ _ _ Hres).
  eapply predict_proba_accumulate_length, Hacc.
Qed.

(** ** The scan for the most voted class *)

Lemma most_voted_spec (votes : list f32) (n : Z) :
  n <= Z.of_nat (length votes) ->
  exists k m,
    most_voted votes n = Done (k, m) /\ first_strict_maximum votes n k.
Proof.
  intros Hlen. unfold most_voted, for_loop.
  set (body := fun (i : Z) (best : Z * f32) =>
                 let '(most_voted_class, most_voted_value) := best in
                 do v <- load votes i ;
                 if f32_gt v most_voted_value then Done (i, v)
                 else Done (most_voted_class, most_voted_value)).
  pose (Inv := fun (i : Z) (best : Z * f32) =>
    (forall j vj, 0 <= j < i -> votes !! Z.to_nat j = Some vj ->
                  f32_gt vj (snd best) = false) /\
    ((fst best = -1 /\ snd best = f32_zero) \/
     (0 <= fst best < i /\
      votes !! Z.to_nat (fst best) = Some (snd best) /\
      f32_gt (snd best) f32_zero = true /\
      forall j vj, 0 <= j < fst best -> votes !! Z.to_nat j = Some vj ->
                   f32_ge vj (snd best) = false))).
  destruct (for_from_total Inv body (Z.to_nat n) 0 (-1, f32_zero))
    as ([k m] & Hrun & Hall & Hbest).
  { split; [intros j vj Hj; lia | left; split; reflexivity]. }
  { intros i [k m] Hi (Hall & Hbest). cbn [fst snd] in Hall, Hbest.
    destruct (lookup_lt_is_Some_2 votes (Z.to_nat i)) as [v Hv]; [lia |].
    unfold body. rewrite (load_Done votes i v) by (lia || assumption).
    cbn [obind]. destruct (f32_gt v m) eqn:Hgt.
    - eexists. split; [reflexivity |]. split; cbn [fst snd].
      + intros j vj Hj Hvj. destruct (Z.eq_dec j i) as [-> | Hne].
        * rewrite Hv in Hvj. injection Hvj as <-. apply f32_gt_irrefl.
        * destruct (f32_gt vj v) eqn:Hjv; [| reflexivity].
          rewrite <- (Hall j vj ltac:(lia) Hvj).
          symmetry. eapply f32_gt_trans; eassumption.
      + right. split; [lia |]. split; [assumption |]. split.
        * destruct Hbest as [[_ ->] | (_ & _ & Hm & _)]; [assumption |].
          eapply f32_gt_trans; eassumption.
        * intros j vj Hj Hvj. destruct (f32_ge vj v) eqn:Hjv; [| reflexivity].
          rewrite <- (Hall j vj ltac:(lia) Hvj).
          symmetry. eapply f32_ge_gt_trans; eassumption.
    - eexists. split; [reflexivity |]. split; cbn [fst snd].
      + intros j vj Hj Hvj. destruct (Z.eq_dec j i) as [-> | Hne].
        * rewrite Hv in Hvj. injection Hvj as <-. assumption.
        * apply (Hall j vj); [lia | assumption].
      + destruct Hbest as [Hnone | (Hk & Hrest)]; [left; assumption |].
        right. split; [lia | assumption]. }
  exists k, m. split; [exact Hrun |].
  cbn [fst snd] in Hall, Hbest. rewrite Z.add_0_l in Hall, Hbest.
  assert (Hn : forall j, 0 <= j < Z.of_nat (Z.to_nat n) -> 0 <= j < n) by lia.
  assert (Hn' : forall j, 0 <= j < n -> 0 <= j < Z.of_nat (Z.to_nat n)) by lia.
  destruct Hbest as [[-> ->] | (Hk & Hvk & Hpos & Hfirst)].
  - left. split; [reflexivity |].
    intros j vj Hj Hvj. apply (Hall j vj); auto.
  - right. split; [auto |]. exists m.
    split; [assumption | split; [assumption | split; [| assumption]]].
    intros j vj Hj Hvj. apply (Hall j vj); auto.
Qed.

(** C3: whenever the scores are computed, [eml_trees_predict] returns the
    class selected by a left-to-right scan with a strict [>] from a running
    maximum of zero: no class ([-1]) exactly when no score is above zero, so
    for an all-zero score vector; otherwise a class whose score is above
    zero and exceeded by none, and that no earlier class reaches, so of two
    classes with the same score the later one is never returned. *)
Theorem C3_predict_selects_first_strict_maximum
    fuel forest features features_length votes :
  features_length = n_features forest ->
  n_classes forest <= 30 ->
  eml_trees_predict_proba fuel forest features features_length
    (Some (replicate (Z.to_nat EMTREES_MAX_CLASSES) f32_zero))
    (n_classes forest) = Done (EmlOk, votes) ->
  exists scores k,
    votes = Some scores /\
    eml_trees_predict fuel forest features features_length = Done k /\
    first_strict_maximum scores (n_classes forest) k /\
    ((forall j, 0 <= j < n_classes forest ->
                scores !! Z.to_nat j = Some f32_zero) -> k = -1) /\
    (forall a b v,
       0 <= a < b -> b < n_classes forest ->
       scores !! Z.to_nat a = Some v -> scores !! Z.to_nat b = Some v ->
       f32_ge v v = true -> k <> b).
Proof.
  intros Hfl Hmax Hproba.
  destruct (predict_proba_Ok_inv _ _ _ _ _ _ _ Hproba)
    as (acc & scores & _ & _ & -> & Hlen).
  rewrite length_replicate in Hlen.
  destruct (most_voted_spec scores (n_classes forest)) as (k & m & Hscan & Hk).
  { rewrite Hlen. unfold EMTREES_MAX_CLASSES. lia. }
  exists scores, k. split; [reflexivity |]. split; [| split; [exact Hk |]].
  - unfold eml_trees_predict.
    destruct (Z.eqb_spec features_length (n_features forest));
      [| contradiction].
    cbn [negb]. rewrite Z.gtb_ltb.
    destruct (Z.ltb_spec EMTREES_MAX_CLASSES (n_classes forest)) as [Hlt |];
      [unfold EMTREES_MAX_CLASSES in Hlt; lia |].
    rewrite Hproba. cbn [obind EmlError_eqb negb deref].
    rewrite Hscan. reflexivity.
  - split.
    + intros Hzero.
      destruct Hk as [[-> _] | (Hrange & vk & Hvk & Hpos & _)];
        [reflexivity |].
      rewrite (Hzero k Hrange) in Hvk. injection Hvk as <-.
      rewrite f32_gt_irrefl in Hpos. discriminate.
    + intros a b v Hab Hb Ha Hvb Hrefl ->.
      destruct Hk as [[-> _] | (_ & vk & Hvk & _ & _ & Hfirst)]; [lia |].
      rewrite Hvb in Hvk. injection Hvk as <-.
      rewrite (Hfirst a v ltac:(lia) Ha) in Hrefl. discriminate.
Qed.

Lemma C3_witness :
  exists scores k,
    Some (replicate 2 (S754_finite false 8388608 (-24))
          ++ replicate 28 f32_zero) = Some scores /\
    eml_trees_predict 1 scenario_tie (Some [5]) 1 = Done k /\
    first_strict_maximum scores (n_classes scenario_tie) k /\
    ((forall j, 0 <= j < n_classes scenario_tie ->
                scores !! Z.to_nat j = Some f32_zero) -> k = -1) /\
    (forall a b v,
       0 <= a < b -> b < n_classes scenario_tie ->
       scores !! Z.to_nat a = Some v -> scores !! Z.to_nat b = Some v ->
       f32_ge v v = true -> k <> b).
Proof.
  apply (C3_predict_selects_first_strict_maximum 1 scenario_tie (Some [5]) 1).
  - reflexivity.
  - simpl. lia.
  - vm_compute. reflexivity.
Defined.

(** The tie-break scenario of the specification, run: both classes score
    [1/2] and the lower index is returned. *)
Example predict_tie_returns_lower_class :
  eml_trees_predict 1 scenario_tie (Some [5]) 1 = Done 0.
Proof. vm_compute. reflexivity. Qed.

(** ** Rounding to binary32

    An integer below [2^24] is a [float], and adding one to it is exact. *)

Lemma iter_pos_nat {A} (f : A -> A) (p : positive) (x : A) :
  SpecFloat.iter_pos f p x = Nat.iter (Pos.to_nat p) f x.
Proof.
  revert x. induction p as [p IH | p IH |]; intros x; cbn [SpecFloat.iter_pos].
  - rewrite !IH, Pos2Nat.inj_xI.
    replace (S (2 * Pos.to_nat p))
      with (Pos.to_nat p + (Pos.to_nat p + 1))%nat by lia.
    rewrite !Nat.iter_add. reflexivity.
  - rewrite !IH, Pos2Nat.inj_xO.
    replace (2 * Pos.to_nat p)%nat
      with (Pos.to_nat p + Pos.to_nat p)%nat by lia.
    rewrite Nat.iter_add. reflexivity.
  - reflexivity.
Qed.

Lemma Pos_iter_xO (m d : positive) :
  Pos.iter xO m d = Pos.shiftl_nat m (Pos.to_nat d).
Proof. apply Pos2Nat.inj_iter. Qed.

Lemma shiftl_nat_add (m : positive) (a b : nat) :
  Pos.shiftl_nat (Pos.shiftl_nat m a) b = Pos.shiftl_nat m (a + b).
Proof.
  induction b as [| b IH].
  - now rewrite Nat.add_0_r.
  - rewrite Nat.add_succ_r. cbn. now rewrite <- IH.
Qed.

Lemma shiftl_nat_Z (m : positive) (n : nat) :
  Z.pos (Pos.shiftl_nat m n) = Z.pos m * 2 ^ Z.of_nat n.
Proof.
  induction n as [| n IH].
  - cbn. lia.
  - rewrite Nat2Z.inj_succ, Z.pow_succ_r by lia.
    change (Pos.shiftl_nat m (S n)) with (xO (Pos.shiftl_nat m n)).
    rewrite Pos2Z.inj_xO, IH. lia.
Qed.

Lemma digits2_shiftl_nat (m : positive) (n : nat) :
  Z.pos (digits2_pos (Pos.shiftl_nat m n))
  = Z.pos (digits2_pos m) + Z.of_nat n.
Proof.
  induction n as [| n IH].
  - cbn. lia.
  - change (Pos.shiftl_nat m (S n)) with (xO (Pos.shiftl_nat m n)).
    cbn [digits2_pos]. rewrite Pos2Z.inj_succ, IH. lia.
Qed.

Lemma digits2_bound (p : positive) :
  forall n : Z, Z.pos p < 2 ^ n -> Z.pos (digits2_pos p) <= n.
Proof.
  induction p as [p IH | p IH |]; intros n Hp.
  - assert (0 < n)
      by (destruct n as [| n | n];
          [change (2 ^ 0) with 1 in Hp | | rewrite Z.pow_neg_r in Hp]; lia).
    cbn [digits2_pos]. rewrite Pos2Z.inj_succ.
    replace n with (Z.succ (n - 1)) in Hp by lia.
    rewrite Z.pow_succ_r in Hp by lia.
    specialize (IH (n - 1)). lia.
  - assert (0 < n)
      by (destruct n as [| n | n];
          [change (2 ^ 0) with 1 in Hp | | rewrite Z.pow_neg_r in Hp]; lia).
    cbn [digits2_pos]. rewrite Pos2Z.inj_succ.
    replace n with (Z.succ (n - 1)) in Hp by lia.
    rewrite Z.pow_succ_r in Hp by lia.
    specialize (IH (n - 1)). lia.
  - assert (0 < n)
      by (destruct n as [| n | n];
          [change (2 ^ 0) with 1 in Hp | | rewrite Z.pow_neg_r in Hp]; lia).
    cbn. lia.
Qed.

Lemma shl_align_eq (m : positive) (e e' : Z) :
  shl_align m e e' =
  if e' <? e then (Pos.shiftl_nat m (Z.to_nat (e - e')), e') else (m, e).
Proof.
  unfold shl_align.
  destruct (Z.ltb_spec e' e) as [Hlt | Hge].
  - destruct (e' - e) as [| d | d] eqn:Hd; try lia.
    rewrite Pos_iter_xO. do 2 f_equal. lia.
  - destruct (e' - e) as [| d | d] eqn:Hd; try lia; reflexivity.
Qed.

Lemma shr_eq (mrs : shr_record) (e n : Z) :
  shr mrs e n =
  if 0 <? n then (Nat.iter (Z.to_nat n) shr_1 mrs, e + n) else (mrs, e).
Proof.
  unfold shr. destruct n as [| p | p]; try reflexivity.
  cbn [Z.ltb Z.compare]. rewrite iter_pos_nat. reflexivity.
Qed.

Lemma shr_1_exact (m : positive) (n : nat) :
  Nat.iter n shr_1
    {| shr_m := Z.pos (Pos.shiftl_nat m n); shr_r := false; shr_s := false |}
  = {| shr_m := Z.pos m; shr_r := false; shr_s := false |}.
Proof.
  induction n as [| n IH]; [reflexivity |].
  rewrite Nat.iter_succ_r. 
  change (Pos.shiftl_nat m (S n)) with (xO (Pos.shiftl_nat m n)).
  cbn [shr_1 orb]. exact IH.
Qed.

Lemma binary_round_aux_exact (s : bool) (q : positive) (n : nat) (e : Z) :
  Z.pos (digits2_pos q) = 24 ->
  -149 <= e + Z.of_nat n <= 104 ->
  binary_round_aux 24 128 s (Z.pos (Pos.shiftl_nat q n)) e loc_Exact
  = S754_finite s q (e + Z.of_nat n).
Proof.
  intros Hq He. unfold binary_round_aux, shr_fexp, fexp, emin.
  cbn [Zdigits2 shr_record_of_loc]. rewrite digits2_shiftl_nat, Hq, shr_eq.
  replace (Z.max (24 + Z.of_nat n + e - 24) (3 - 128 - 24) - e)
    with (Z.of_nat n) by lia.
  assert (Hsecond : forall e', -149 <= e' <= 104 ->
    (let '(mrs'', e'') :=
       shr {| shr_m := Z.pos q; shr_r := false; shr_s := false |} e'
         (Z.max (Z.pos (digits2_pos q) + e' - 24) (3 - 128 - 24) - e') in
     match shr_m mrs'' with
     | 0 => S754_zero s
     | Z.pos m => if e'' <=? 128 - 24 then S754_finite s m e''
                  else S754_infinity s
     | Z.neg _ => S754_nan
     end) = S754_finite s q e').
  { intros e' He'. rewrite Hq, shr_eq.
    replace (Z.max (24 + e' - 24) (3 - 128 - 24) - e') with 0 by lia.
    cbn [Z.ltb Z.compare shr_m].
    destruct (Z.leb_spec e' (128 - 24)); [reflexivity | lia]. }
  destruct (Z.ltb_spec 0 (Z.of_nat n)) as [Hn | Hn].
  - rewrite Nat2Z.id, shr_1_exact.
    cbn [shr_m loc_of_shr_record round_nearest_even Zdigits2
         shr_record_of_loc].
    apply Hsecond. lia.
  - assert (n = 0%nat) as -> by lia.
    cbn [Pos.shiftl_nat nat_rect shr_m loc_of_shr_record round_nearest_even
         Zdigits2 shr_record_of_loc].
    rewrite Z.add_0_r. apply Hsecond. lia.
Qed.

Lemma binary_round_scaled (s : bool) (p : positive) (j : nat) (e : Z) :
  Z.pos (digits2_pos p) <= 24 ->
  -149 <= Z.pos (digits2_pos p) + Z.of_nat j + e - 24 <= 104 ->
  binary_round 24 128 s (Pos.shiftl_nat p j) e
  = S754_finite s
      (Pos.shiftl_nat p (Z.to_nat (24 - Z.pos (digits2_pos p))))
      (Z.pos (digits2_pos p) + Z.of_nat j + e - 24).
Proof.
  intros Hd He. unfold binary_round, fexp, emin.
  rewrite digits2_shiftl_nat, shl_align_eq.
  set (d := Z.pos (digits2_pos p)) in *.
  replace (Z.max (d + Z.of_nat j + e - 24) (3 - 128 - 24))
    with (d + Z.of_nat j + e - 24) by lia.
  destruct (Z.ltb_spec (d + Z.of_nat j + e - 24) e) as [Hlt | Hge].
  - rewrite shiftl_nat_add.
    replace (j + Z.to_nat (e - (d + Z.of_nat j + e - 24)))%nat
      with (Z.to_nat (24 - d)) by lia.
    pose proof (binary_round_aux_exact s
                  (Pos.shiftl_nat p (Z.to_nat (24 - d))) 0
                  (d + Z.of_nat j + e - 24)) as H.
    cbn [Pos.shiftl_nat nat_rect] in H. rewrite Z.add_0_r in H.
    apply H; [| lia].
    rewrite digits2_shiftl_nat. fold d. lia.
  - replace j with (Z.to_nat (24 - d) + Z.to_nat (d + Z.of_nat j - 24))%nat
      at 1 by lia.
    rewrite <- shiftl_nat_add.
    rewrite binary_round_aux_exact.
    + f_equal. lia.
    + rewrite digits2_shiftl_nat. fold d. lia.
    + lia.
Qed.

Lemma f32_of_Z_pos (p : positive) :
  Z.pos (digits2_pos p) <= 24 ->
  f32_of_Z (Z.pos p)
  = S754_finite false
      (Pos.shiftl_nat p (Z.to_nat (24 - Z.pos (digits2_pos p))))
      (Z.pos (digits2_pos p) - 24).
Proof.
  intros Hd. unfold f32_of_Z, f32_prec, f32_emax. cbn [binary_normalize].
  pose proof (binary_round_scaled false p 0 0 Hd) as H.
  cbn [Pos.shiftl_nat nat_rect Z.of_nat] in H.
  rewrite H by (pose proof (Pos2Z.is_pos (digits2_pos p)); lia).
  f_equal; lia.
Qed.

Lemma f32_add_one (k : Z) :
  0 <= k -> k + 1 < 2 ^ 24 ->
  f32_add (f32_of_Z k) f32_one = f32_of_Z (k + 1).
Proof.
  intros Hk Hmax. destruct k as [| p | p]; [reflexivity | | lia].
  assert (Hd : Z.pos (digits2_pos p) <= 24) by (apply digits2_bound; lia).
  assert (Hd' : Z.pos (digits2_pos (p + 1)) <= 24)
    by (apply digits2_bound; lia).
  pose proof (Pos2Z.is_pos (digits2_pos p)) as Hd0.
  pose proof (Pos2Z.is_pos (digits2_pos (p + 1))) as Hd0'.
  change (Z.pos p + 1) with (Z.pos (p + 1)).
  rewrite !f32_of_Z_pos by assumption.
  change f32_one with (S754_finite false 8388608 (-23)).
  unfold f32_add, f32_prec, f32_emax. cbn [SFadd cond_Zopp].
  set (d := Z.pos (digits2_pos p)) in *.
  set (d' := Z.pos (digits2_pos (p + 1))) in *.
  replace (Z.min (d - 24) (-23)) with (-23) by lia.
  rewrite !shl_align_eq. change (-23 <? -23) with false. cbv iota.
  cbn [fst].
  assert (Hfst : fst (if -23 <? d - 24
                      then (Pos.shiftl_nat
                              (Pos.shiftl_nat p (Z.to_nat (24 - d)))
                              (Z.to_nat (d - 24 - -23)), -23)
                      else (Pos.shiftl_nat p (Z.to_nat (24 - d)), d - 24))
                 = Pos.shiftl_nat p 23).
  { destruct (Z.ltb_spec (-23) (d - 24)); cbn [fst].
    - rewrite shiftl_nat_add. f_equal. lia.
    - f_equal. lia. }
  rewrite Hfst.
  replace (Z.pos (Pos.shiftl_nat p 23) + 8388608)
    with (Z.pos (Pos.shiftl_nat (p + 1) 23))
    by (rewrite !shiftl_nat_Z; change (2 ^ Z.of_nat 23) with 8388608; lia).
  cbn [binary_normalize].
  rewrite binary_round_scaled by (fold d'; lia). fold d'.
  f_equal; lia.
Qed.

Lemma f32_value_of_Z (k : Z) :
  0 <= k <= 2 ^ 24 ->
  exists q, f32_value (f32_of_Z k) = Some q /\ (q == inject_Z k)%Q.
Proof.
  intros Hk.
  destruct (Z.eq_dec k (2 ^ 24)) as [-> | Hne].
  { eexists. split; [reflexivity |]. reflexivity. }
  destruct k as [| p | p]; [eexists; split; reflexivity | | lia].
  assert (Hd : Z.pos (digits2_pos p) <= 24) by (apply digits2_bound; lia).
  pose proof (Pos2Z.is_pos (digits2_pos p)) as Hd0.
  rewrite f32_of_Z_pos by assumption. cbn [f32_value].
  eexists. split; [reflexivity |].
  rewrite shiftl_nat_Z. set (d := Z.pos (digits2_pos p)) in *.
  rewrite Z2Nat.id by lia.
  rewrite inject_Z_mult.
  replace (d - 24) with (- (24 - d)) by lia.
  rewrite Qpower_opp. rewrite <- Qmult_assoc.
  rewrite (Zpower_Qpower 2 (24 - d)) by lia.
  rewrite Qmult_inv_r, Qmult_1_r; [reflexivity |].
  apply Qpower_not_0. discriminate.
Qed.

(** ** Counting unit votes *)

Lemma f32_add_one_le (k : Z) :
  0 <= k < 2 ^ 24 -> f32_add (f32_of_Z k) f32_one = f32_of_Z (k + 1).
Proof.
  intros Hk. destruct (Z.eq_dec k (2 ^ 24 - 1)) as [-> | Hne].
  - vm_compute. reflexivity.
  - apply f32_add_one; lia.
Qed.

Lemma Zsum_cons (a : Z) (l : list Z) : Zsum (a :: l) = a + Zsum l.
Proof. reflexivity. Qed.

Lemma Zsum_insert (l : list Z) (i : nat) (x y : Z) :
  l !! i = Some x -> Zsum (<[i := y]> l) = Zsum l - x + y.
Proof.
  revert i. induction l as [| a l IH]; intros [| i] H; try discriminate.
  - injection H as ->. simpl. lia.
  - simpl. rewrite (IH i H). lia.
Qed.

Lemma Zsum_nonneg (l : list Z) : Forall (fun c => 0 <= c) l -> 0 <= Zsum l.
Proof.
  induction 1 as [| a l Ha Hall IH]; [reflexivity |].
  rewrite Zsum_cons. lia.
Qed.

Lemma Zsum_lookup_le (l : list Z) (i : nat) (x : Z) :
  Forall (fun c => 0 <= c) l -> l !! i = Some x -> x <= Zsum l.
Proof.
  intros Hall. revert i. induction Hall as [| a l Ha Hall IH];
    intros [| i] H; try discriminate.
  - injection H as ->. rewrite Zsum_cons.
    pose proof (Zsum_nonneg l Hall). lia.
  - rewrite Zsum_cons. specialize (IH i H). lia.
Qed.

Lemma unit_vote_count (counts : list Z) (rest : list f32) (c cnt : Z) :
  0 <= c -> counts !! Z.to_nat c = Some cnt -> 0 <= cnt < 2 ^ 24 ->
  unit_vote ((f32_of_Z <$> counts) ++ rest) c
  = (f32_of_Z <$> <[Z.to_nat c := cnt + 1]> counts) ++ rest.
Proof.
  intros Hc Hcnt Hrange. unfold unit_vote.
  assert (Hlt : (Z.to_nat c < length (f32_of_Z <$> counts))%nat).
  { rewrite length_fmap. eapply lookup_lt_Some, Hcnt. }
  rewrite lookup_app_l by assumption.
  rewrite list_lookup_fmap, Hcnt. cbn [fmap option_fmap option_map].
  rewrite insert_app_l by assumption.
  rewrite f32_add_one_le by assumption.
  now rewrite list_fmap_insert.
Qed.

Lemma unit_votes_counts (cs : list Z) :
  forall (counts : list Z) (rest : list f32),
    Forall (fun c => 0 <= c < Z.of_nat (length counts)) cs ->
    Forall (fun c => 0 <= c) counts ->
    Zsum counts + Z.of_nat (length cs) <= 2 ^ 24 ->
    exists counts',
      length counts' = length counts /\
      Forall (fun c => 0 <= c) counts' /\
      Zsum counts' = Zsum counts + Z.of_nat (length cs) /\
      foldl unit_vote ((f32_of_Z <$> counts) ++ rest) cs
      = (f32_of_Z <$> counts') ++ rest.
Proof.
  induction cs as [| c cs IH]; intros counts rest Hcs Hpos Hsum.
  - exists counts. cbn. repeat split; try assumption; lia.
  - inversion Hcs as [| ? ? Hc Hcs']; subst.
    destruct (lookup_lt_is_Some_2 counts (Z.to_nat c)) as [cnt Hcnt]; [lia |].
    pose proof (Zsum_lookup_le counts _ cnt Hpos Hcnt) as Hle.
    assert (Hcnt0 : 0 <= cnt).
    { rewrite Forall_lookup in Hpos. eapply Hpos, Hcnt. }
    cbn [length] in Hsum.
    destruct (IH (<[Z.to_nat c := cnt + 1]> counts) rest)
      as (counts' & Hlen & Hpos' & Hsum' & Hfold).
    + rewrite length_insert. exact Hcs'.
    + apply Forall_insert; [assumption | lia].
    + rewrite (Zsum_insert _ _ cnt) by assumption. lia.
    + exists counts'. rewrite length_insert in Hlen.
      rewrite (Zsum_insert _ _ cnt) in Hsum' by assumption.
      split; [assumption | split; [assumption | split]].
      * cbn [length]. lia.
      * cbn [foldl].
        rewrite (unit_vote_count counts rest c cnt) by (assumption || lia).
        exact Hfold.
Qed.

Lemma f32_sum_value_counts (counts : list Z) :
  Forall (fun c => 0 <= c <= 2 ^ 24) counts ->
  exists q,
    f32_sum_value (f32_of_Z <$> counts) = Some q /\
    (q == inject_Z (Zsum counts))%Q.
Proof.
  induction 1 as [| c counts Hc Hall (q & Hq & Heq)].
  - exists 0%Q. split; reflexivity.
  - destruct (f32_value_of_Z c Hc) as (qc & Hqc & Heqc).
    exists (qc + q)%Q. split.
    + rewrite fmap_cons. cbn [f32_sum_value]. now rewrite Hqc, Hq.
    + rewrite Zsum_cons, inject_Z_plus, Heqc, Heq. reflexivity.
Qed.

(** ** The votes of a majority-vote model *)

(** The mean of lines 174-177. *)
Lemma mean_from (divisor : f32) (todo : nat) :
  forall (done rest : list f32),
    (todo <= length rest)%nat ->
    for_from todo (Z.of_nat (length done))
      (fun i out => do cur <- load out i ; store out i (f32_div cur divisor))
      (done ++ rest)
    = Done (done ++ ((fun a => f32_div a divisor) <$> take todo rest)
            ++ drop todo rest).
Proof.
  induction todo as [| todo IH]; intros done rest Hlen.
  - cbn [for_from take drop fmap list_fmap app]. reflexivity.
  - destruct rest as [| x rest]; [cbn in Hlen; lia |].
    cbn [for_from].
    rewrite (load_Done (done ++ x :: rest) (Z.of_nat (length done)) x)
      by (lia || (rewrite Nat2Z.id; apply list_lookup_middle; reflexivity)).
    cbn [obind].
    rewrite store_Done by (rewrite length_app; cbn [length]; lia).
    cbn [obind]. rewrite Nat2Z.id.
    rewrite insert_app_r_alt, Nat.sub_diag by lia. cbn [insert list_insert].
    pose proof (IH (done ++ [f32_div x divisor]) rest) as H.
    rewrite length_app in H. cbn [length] in H.
    replace (Z.of_nat (length done) + 1)
      with (Z.of_nat (length done + 1)) by lia.
    rewrite <- !app_assoc in H. cbn [app] in H.
    rewrite H by (cbn in Hlen; lia). reflexivity.
Qed.

Lemma predict_proba_mean_Done self (acc : list f32) (out_length : Z) :
  out_length <= Z.of_nat (length acc) ->
  predict_proba_mean self acc out_length
  = Done (((fun a => f32_div a (f32_of_Z (n_trees self)))
             <$> take (Z.to_nat out_length) acc)
          ++ drop (Z.to_nat out_length) acc).
Proof.
  intros Hlen. unfold predict_proba_mean, for_loop.
  pose proof (mean_from (f32_of_Z (n_trees self)) (Z.to_nat out_length)
                [] acc) as H.
  cbn [length app] in H. change (Z.of_nat 0) with 0 in H.
  apply H. lia.
Qed.

Lemma Zsum_replicate_0 (n : nat) : Zsum (replicate n 0) = 0.
Proof. induction n as [| n IH]; [reflexivity |]. simpl. exact IH. Qed.

Lemma class_bytes_wfb_spec forest :
  class_bytes_wfb forest = true ->
  forall (l : nat) (b : Z),
    leaves forest !! l = Some b -> 0 <= b < n_classes forest.
Proof.
  unfold class_bytes_wfb. rewrite forallb_forall. intros Hall l b Hb.
  specialize (Hall b). rewrite <- list_elem_of_In in Hall.
  specialize (Hall (list_elem_of_lookup_2 _ _ _ Hb)).
  apply andb_prop in Hall. lia.
Qed.

(** C6, as the code has it: for a well-formed majority-vote model
    ([leaf_bits = 0]) whose leaves name classes below [n_classes] and that has
    at most [2^24] trees, every tree adds one unit vote to the score of the
    class at its leaf: before the division the scores are the exact counts of
    votes per class and sum to [n_trees], and the output is each of them
    divided by [n_trees]. *)
Theorem C6_majority_votes_sum_to_n_trees
    forest feats features_length depth buf :
  forest_wfb forest feats depth = true ->
  leaf_bits forest = 0 ->
  class_bytes_wfb forest = true ->
  n_trees forest <= 2 ^ 24 ->
  n_classes forest <= Z.of_nat (length buf) ->
  exists cs counts total,
    Forall2 (fun root c =>
               exists l, spec_traverse (nodes forest) feats root l /\
                         0 <= l /\ leaves forest !! Z.to_nat l = Some c)
      (take (Z.to_nat (n_trees forest)) (tree_roots forest)) cs /\
    length counts = Z.to_nat (n_classes forest) /\
    Forall (fun c => 0 <= c) counts /\
    Zsum counts = n_trees forest /\
    f32_sum_value (f32_of_Z <$> counts) = Some total /\
    (total == inject_Z (n_trees forest))%Q /\
    forall fuel, (depth <= fuel)%nat ->
      predict_proba_accumulate fuel forest (Some feats) features_length
        buf (n_classes forest)
      = Done (EmlOk,
              foldl unit_vote
                (replicate (Z.to_nat (n_classes forest)) f32_zero
                 ++ drop (Z.to_nat (n_classes forest)) buf) cs) /\
      foldl unit_vote
        (replicate (Z.to_nat (n_classes forest)) f32_zero
         ++ drop (Z.to_nat (n_classes forest)) buf) cs
      = (f32_of_Z <$> counts) ++ drop (Z.to_nat (n_classes forest)) buf /\
      eml_trees_predict_proba fuel forest (Some feats) features_length
        (Some buf) (n_classes forest)
      = Done (EmlOk,
              Some (((fun a => f32_div a (f32_of_Z (n_trees forest)))
                       <$> (f32_of_Z <$> counts))
                    ++ drop (Z.to_nat (n_classes forest)) buf)).
Proof.
  intros Hwf Hbits Hclass Hmax Hbuf.
  apply forest_wfb_wf in Hwf.
  pose proof (class_bytes_wfb_spec forest Hclass) as Hclass'.
  destruct (majority_accumulate_wf forest feats depth features_length
              Hwf Hbits Hclass' buf Hbuf) as (cs & Hcs & Hrange & Hacc).
  set (n := Z.to_nat (n_classes forest)) in *.
  assert (Hlen : length cs = Z.to_nat (n_trees forest)).
  { rewrite <- (Forall2_length _ _ _ Hcs), length_take.
    pose proof (wf_trees _ _ _ Hwf). lia. }
  destruct (unit_votes_counts cs (replicate n 0) (drop n buf))
    as (counts & Hclen & Hpos & Hsum & Hfold).
  { rewrite length_replicate. eapply Forall_impl; [exact Hrange |].
    cbn beta. intros c Hc. lia. }
  { apply Forall_replicate. lia. }
  { rewrite Zsum_replicate_0, Hlen. pose proof (wf_trees _ _ _ Hwf). lia. }
  rewrite fmap_replicate in Hfold. change (f32_of_Z 0) with f32_zero in Hfold.
  rewrite length_replicate in Hclen.
  rewrite Zsum_replicate_0, Hlen, Z.add_0_l in Hsum.
  rewrite Z2Nat.id in Hsum by (pose proof (wf_trees _ _ _ Hwf); lia).
  destruct (f32_sum_value_counts counts) as (total & Htotal & Heq).
  { rewrite Forall_lookup. intros i c Hc.
    pose proof (Zsum_lookup_le counts i c Hpos Hc).
    rewrite Forall_lookup in Hpos. specialize (Hpos i c Hc). lia. }
  exists cs, counts, total.
  split; [assumption |]. split; [assumption |]. split; [assumption |].
  split; [assumption |]. split; [assumption |].
  split; [now rewrite Heq, Hsum |].
  intros fuel Hfuel.
  split; [apply Hacc; assumption |]. split; [exact Hfold |].
  unfold eml_trees_predict_proba, EML_PRECONDITION, eml_trees_outputs_proba.
  rewrite !bool_decide_eq_true_2 by eauto.
  rewrite Z.eqb_refl. cbn [deref obind].
  rewrite (Hacc fuel Hfuel), Hfold. cbn [obind].
  rewrite predict_proba_mean_Done
    by (rewrite length_app, length_fmap, length_drop; lia).
  fold n. rewrite take_app_length', drop_app_length'
    by (rewrite length_fmap; lia).
  reflexivity.
Qed.

Lemma C6_witness :
  exists cs counts total,
    Forall2 (fun root c =>
               exists l, spec_traverse (nodes scenario_B) [5] root l /\
                         0 <= l /\ leaves scenario_B !! Z.to_nat l = Some c)
      (take (Z.to_nat (n_trees scenario_B)) (tree_roots scenario_B)) cs /\
    length counts = Z.to_nat (n_classes scenario_B) /\
    Forall (fun c => 0 <= c) counts /\
    Zsum counts = n_trees scenario_B /\
    f32_sum_value (f32_of_Z <$> counts) = Some total /\
    (total == inject_Z (n_trees scenario_B))%Q /\
    forall fuel, (1 <= fuel)%nat ->
      predict_proba_accumulate fuel scenario_B (Some [5]) 1
        [f32_nan; f32_nan] (n_classes scenario_B)
      = Done (EmlOk,
              foldl unit_vote
                (replicate (Z.to_nat (n_classes scenario_B)) f32_zero
                 ++ drop (Z.to_nat (n_classes scenario_B))
                      [f32_nan; f32_nan]) cs) /\
      foldl unit_vote
        (replicate (Z.to_nat (n_classes scenario_B)) f32_zero
         ++ drop (Z.to_nat (n_classes scenario_B)) [f32_nan; f32_nan]) cs
      = (f32_of_Z <$> counts)
        ++ drop (Z.to_nat (n_classes scenario_B)) [f32_nan; f32_nan] /\
      eml_trees_predict_proba fuel scenario_B (Some [5]) 1
        (Some [f32_nan; f32_nan]) (n_classes scenario_B)
      = Done (EmlOk,
              Some (((fun a => f32_div a (f32_of_Z (n_trees scenario_B)))
                       <$> (f32_of_Z <$> counts))
                    ++ drop (Z.to_nat (n_classes scenario_B))
                         [f32_nan; f32_nan])).
Proof.
  apply (C6_majority_votes_sum_to_n_trees
           scenario_B [5] 1 1%nat [f32_nan; f32_nan]).
  - reflexivity.
  - reflexivity.
  - reflexivity.
  - vm_compute. discriminate.
  - simpl. lia.
Defined.

(** Scenario B run: the scores are [1/3] and [2/3], and class 1 wins. *)
Example scenario_B_scores :
  eml_trees_predict_proba 1 scenario_B (Some [5]) 1
    (Some [f32_nan; f32_nan]) 2
  = Done (EmlOk, Some [f32_div (f32_of_Z 1) (f32_of_Z 3);
                       f32_div (f32_of_Z 2) (f32_of_Z 3)]) /\
  eml_trees_predict 1 scenario_B (Some [5]) 1 = Done 1.
Proof. split; vm_compute; reflexivity. Qed.

Lemma many_trees_wf : forest_wf many_trees [5] 1.
Proof.
  constructor.
  - unfold INT32_MAX. cbn [n_nodes many_trees]. lia.
  - cbn [n_features many_trees length]. lia.
  - cbn [n_trees tree_roots many_trees]. rewrite length_replicate. lia.
  - intros i root _ Hroot. cbn [tree_roots many_trees] in Hroot.
    apply lookup_replicate in Hroot as [-> _]. reflexivity.
  - reflexivity.
Qed.

(** The claim C6 as stated fails for a model of [2^24 + 1] trees that all
    vote for the same class: [many_trees] is well formed, and the score of
    its class stays at [2^24 = 16777216] when the last tree votes, the
    [float] addition [16777216 + 1] rounding to [16777216]; the sum of the
    accumulated output is not [n_trees = 16777217]. *)
Lemma C6_counterexample :
  forest_wf many_trees [5] 1 /\
  leaf_bits many_trees = 0 /\
  class_bytes_wfb many_trees = true /\
  n_trees many_trees = 16777217 /\
  predict_proba_accumulate 1 many_trees (Some [5]) 1 [f32_nan]
    (n_classes many_trees)
  = Done (EmlOk, [S754_finite false 8388608 1]) /\
  f32_sum_value [S754_finite false 8388608 1]
  = Some (inject_Z 8388608 * 2 ^ 1 + 0)%Q /\
  (inject_Z 8388608 * 2 ^ 1 + 0 == 16777216)%Q /\
  ~ (inject_Z 8388608 * 2 ^ 1 + 0 == inject_Z (n_trees many_trees))%Q.
Proof.
  split; [exact many_trees_wf |].
  split; [reflexivity |]. split; [reflexivity |]. split; [reflexivity |].
  split; [| split; [reflexivity | split; [reflexivity | discriminate]]].
  destruct (majority_accumulate_wf many_trees [5] 1 1
              many_trees_wf eq_refl
              (class_bytes_wfb_spec many_trees eq_refl) [f32_nan])
    as (cs & Hcs & Hrange & Hacc).
  { cbn [n_classes many_trees length]. lia. }
  rewrite (Hacc 1%nat (le_n 1)). do 2 f_equal.
  change (replicate (Z.to_nat (n_classes many_trees)) f32_zero
          ++ drop (Z.to_nat (n_classes many_trees)) [f32_nan])
    with (f32_of_Z <$> [0]).
  assert (Hlen : length cs = S (Z.to_nat 16777216)).
  { rewrite <- (Forall2_length _ _ _ Hcs), length_take.
    cbn [n_trees tree_roots many_trees]. rewrite length_replicate. lia. }
  destruct (exists_last (l := cs)) as (cs' & c & ->).
  { intros ->. discriminate Hlen. }
  rewrite length_app in Hlen. cbn [length] in Hlen.
  apply Forall_app in Hrange as [Hrange' Hc].
  inversion Hc as [| ? ? Hc0 _]; subst. cbn [n_classes many_trees] in Hc0.
  assert (c = 0) as -> by lia.
  destruct (unit_votes_counts cs' [0] [])
    as (counts & Hclen & Hpos & Hsum & Hfold).
  { eapply Forall_impl; [exact Hrange' |]. cbn beta. intros c Hc'.
    cbn [n_classes many_trees] in Hc'. cbn [length]. lia. }
  { apply Forall_singleton. lia. }
  { cbn [Zsum]. lia. }
  rewrite app_nil_r in Hfold.
  destruct counts as [| count [| ? ?]]; try discriminate Hclen.
  cbn [Zsum] in Hsum. assert (count = 16777216) as -> by lia.
  rewrite foldl_app, Hfold. vm_compute. reflexivity.
Qed.

(** * Properties beyond the specification *)

(** ** The traversal on arbitrary models *)

Lemma load_Done_inv {A} (a : list A) (i : Z) (x : A) :
  load a i = Done x -> 0 <= i /\ a !! Z.to_nat i = Some x.
Proof.
  unfold load. destruct (Z.ltb_spec i 0); [discriminate |].
  destruct (a !! Z.to_nat i) as [y |]; [| discriminate].
  intros [= ->]. split; [assumption | reflexivity].
Qed.

Lemma int32_op_Done_inv (z r : Z) : int32_op z = Done r -> r = z.
Proof.
  unfold int32_op. destruct (in_int32 z); [| discriminate]. now intros [= <-].
Qed.

Lemma nodes_typedb_lookup forest (i : nat) nd :
  nodes_typedb forest = true -> nodes forest !! i = Some nd ->
  -32768 <= node_left nd <= 32767 /\ -32768 <= node_right nd <= 32767.
Proof.
  unfold nodes_typedb. rewrite forallb_forall. intros Hall Hnd.
  specialize (Hall nd). rewrite <- list_elem_of_In in Hall.
  specialize (Hall (list_elem_of_lookup_2 _ _ _ Hnd)).
  unfold in_int16 in Hall. repeat (apply andb_prop in Hall as [Hall ?]). lia.
Qed.

Lemma predict_tree_loop_sound forest feats (fuel : nat) :
  nodes_typedb forest = true ->
  forall node_idx final,
    predict_tree_loop fuel forest (Some feats) node_idx = Done final ->
    spec_walk (nodes forest) feats node_idx final /\
    final < 0 /\ (-32768 <= node_idx -> -32768 <= final).
Proof.
  intros Htyped. induction fuel as [| fuel IH]; intros idx final Hrun.
  - cbn [predict_tree_loop] in Hrun.
    destruct (Z.ltb_spec idx 0); [| discriminate].
    injection Hrun as <-. split; [now apply spec_walk_exit | lia].
  - cbn [predict_tree_loop] in Hrun.
    destruct (Z.ltb_spec idx 0) as [Hneg | Hpos].
    { injection Hrun as <-. split; [now apply spec_walk_exit | lia]. }
    apply obind_Done_inv in Hrun as (nd & Hnd & Hrun).
    apply load_Done_inv in Hnd as [_ Hnd].
    cbn [deref obind] in Hrun.
    apply obind_Done_inv in Hrun as (v & Hv & Hrun).
    apply load_Done_inv in Hv as [Hf Hv].
    apply obind_Done_inv in Hrun as (next & Hnext & Hrun).
    destruct (nodes_typedb_lookup forest _ nd Htyped Hnd) as [Hleft Hright].
    set (child := if v <? node_value nd then node_left nd else node_right nd)
      in *.
    assert (Hchild : -32768 <= child <= 32767).
    { unfold child. destruct (v <? node_value nd); assumption. }
    assert (Hnext' : next = if 0 <=? child then idx + child else child).
    { rewrite Z.geb_leb in Hnext. destruct (0 <=? child).
      - now apply int32_op_Done_inv in Hnext.
      - now injection Hnext as <-. }
    destruct (IH next final Hrun) as (Hwalk & Hfin & Hlow).
    split; [| split; [assumption |]].
    + apply (spec_walk_step _ _ idx nd v child final);
        try assumption; [reflexivity |].
      rewrite <- Hnext'. exact Hwalk.
    + intros _. apply Hlow. rewrite Hnext'.
      destruct (Z.leb_spec 0 child); lia.
Qed.

(** X1: on any model whose nodes are of their C type, also a malformed or
    cyclic one, a traversal that starts at a node and returns has followed
    the traversal of the specification, and its leaf index lies between 0
    and 32767. *)
Theorem X1_predict_tree_sound fuel forest feats features_length tree_root leaf :
  nodes_typedb forest = true ->
  0 <= tree_root ->
  eml_trees_predict_tree fuel forest tree_root (Some feats) features_length
  = Done leaf ->
  spec_traverse (nodes forest) feats tree_root leaf /\ 0 <= leaf <= 32767.
Proof.
  intros Htyped Hroot Hrun. unfold eml_trees_predict_tree in Hrun.
  apply obind_Done_inv in Hrun as (final & Hloop & Hrun).
  apply obind_Done_inv in Hrun as (neg & Hneg & Hrun).
  apply int32_op_Done_inv in Hneg as ->. injection Hrun as <-.
  destruct (predict_tree_loop_sound forest feats fuel Htyped _ _ Hloop)
    as (Hwalk & Hfin & Hlow).
  specialize (Hlow ltac:(lia)).
  rewrite to_int16_small by lia.
  split; [| lia]. exists final. split; [assumption | reflexivity].
Qed.

Lemma X1_witness :
  spec_traverse (nodes scenario_A) [15] 0 1 /\ 0 <= 1 <= 32767.
Proof.
  apply (X1_predict_tree_sound 3 scenario_A [15] 1 0 1).
  - reflexivity.
  - lia.
  - reflexivity.
Defined.

(** X2: a negative tree root is a leaf sentinel by itself: the loop is not
    entered, no node and no feature is read, and the result is
    [-tree_root - 1] cut to the 16 bits of [leaf]. It is the leaf index
    [-tree_root - 1] for roots down to [-32768], and another number below
    that. *)
Theorem X2_negative_root_is_a_leaf fuel forest features features_length
    tree_root :
  INT32_MIN < tree_root < 0 ->
  eml_trees_predict_tree fuel forest tree_root features features_length
  = Done (to_int16 (- tree_root - 1)) /\
  (-32768 <= tree_root -> to_int16 (- tree_root - 1) = - tree_root - 1) /\
  (tree_root < -32768 -> to_int16 (- tree_root - 1) <> - tree_root - 1).
Proof.
  intros Hroot. split; [| split].
  - unfold eml_trees_predict_tree.
    assert (Hloop : predict_tree_loop fuel forest features tree_root
                    = Done tree_root).
    { destruct fuel; cbn [predict_tree_loop];
        destruct (Z.ltb_spec tree_root 0); (reflexivity || lia). }
    rewrite Hloop. cbn [obind].
    rewrite int32_op_Done by (unfold INT32_MIN, INT32_MAX in *; lia).
    reflexivity.
  - intros Hlow. apply to_int16_small. lia.
  - intros Hlow Heq. unfold to_int16 in Heq.
    pose proof (Z.mod_pos_bound (- tree_root - 1 + 32768) 65536 ltac:(lia)).
    lia.
Qed.

Lemma X2_witness :
  eml_trees_predict_tree 0 no_trees_regressor (-3) None 0
  = Done (to_int16 (- -3 - 1)) /\
  (-32768 <= -3 -> to_int16 (- -3 - 1) = - -3 - 1) /\
  (-3 < -32768 -> to_int16 (- -3 - 1) <> - -3 - 1).
Proof.
  apply (X2_negative_root_is_a_leaf 0 no_trees_regressor None 0 (-3)).
  unfold INT32_MIN. lia.
Defined.

(** X3: a relative jump of 0 is a jump to the node itself: when the child
    that the features select at a node is 0, the traversal from that node
    never returns, whatever fuel it is given. *)
Theorem X3_zero_offset_never_returns
    fuel forest feats features_length node_idx nd v :
  0 <= node_idx <= INT32_MAX ->
  nodes forest !! Z.to_nat node_idx = Some nd ->
  0 <= node_feature nd ->
  feats !! Z.to_nat (node_feature nd) = Some v ->
  (if v <? node_value nd then node_left nd else node_right nd) = 0 ->
  eml_trees_predict_tree fuel forest node_idx (Some feats) features_length
  = Timeout.
Proof.
  intros Hidx Hnd Hf Hv Hchild. unfold eml_trees_predict_tree.
  assert (Hloop : predict_tree_loop fuel forest (Some feats) node_idx
                  = Timeout).
  { induction fuel as [| fuel IH]; cbn [predict_tree_loop];
      destruct (Z.ltb_spec node_idx 0); try lia; [reflexivity |].
    rewrite (load_Done _ _ _ (proj1 Hidx) Hnd). cbn [obind deref].
    rewrite (load_Done _ _ _ Hf Hv). cbn [obind].
    rewrite Hchild. cbn [Z.geb Z.compare].
    rewrite Z.add_0_r, int32_op_Done by (unfold INT32_MIN; lia).
    cbn [obind]. exact IH. }
  rewrite Hloop. reflexivity.
Qed.

Lemma X3_witness :
  eml_trees_predict_tree 1000 self_loop_model 0 (Some [5]) 1 = Timeout.
Proof.
  apply (X3_zero_offset_never_returns 1000 self_loop_model [5] 1 0
           {| node_feature := 0; node_value := 10;
              node_left := 0; node_right := -1 |} 5).
  - unfold INT32_MAX. lia.
  - reflexivity.
  - simpl. lia.
  - reflexivity.
  - reflexivity.
Defined.

(** ** The results of [eml_trees_predict] *)

Lemma predict_guards_pass fuel forest features features_length :
  features_length = n_features forest ->
  n_classes forest <= 30 ->
  eml_trees_predict fuel forest features features_length =
  do r <- eml_trees_predict_proba fuel forest features features_length
            (Some (replicate (Z.to_nat EMTREES_MAX_CLASSES) f32_zero))
            (n_classes forest) ;
  let '(err, votes) := r in
  if negb (EmlError_eqb err EmlOk) then
    Done (- EmlTreesError_code EmlTreesUnknownError)
  else
    do votes <- deref votes ;
    do best <- most_voted votes (n_classes forest) ;
    Done (fst best).
Proof.
  intros Hfl Hmax. unfold eml_trees_predict.
  destruct (Z.eqb_spec features_length (n_features forest)); [| contradiction].
  cbn [negb]. rewrite Z.gtb_ltb.
  destruct (Z.ltb_spec EMTREES_MAX_CLASSES (n_classes forest)) as [Hlt |];
    [unfold EMTREES_MAX_CLASSES in Hlt; lia | reflexivity].
Qed.

Lemma predict_of_scores fuel forest features features_length scores :
  features_length = n_features forest ->
  n_classes forest <= 30 ->
  eml_trees_predict_proba fuel forest features features_length
    (Some (replicate (Z.to_nat EMTREES_MAX_CLASSES) f32_zero))
    (n_classes forest) = Done (EmlOk, scores) ->
  exists votes k,
    scores = Some votes /\
    eml_trees_predict fuel forest features features_length = Done k /\
    first_strict_maximum votes (n_classes forest) k.
Proof.
  intros Hfl Hmax Hproba.
  destruct (predict_proba_Ok_inv _ _ _ _ _ _ _ Hproba)
    as (acc & votes & _ & _ & -> & Hlen).
  rewrite length_replicate in Hlen.
  destruct (most_voted_spec votes (n_classes forest)) as (k & m & Hscan & Hk).
  { rewrite Hlen. unfold EMTREES_MAX_CLASSES. lia. }
  exists votes, k. split; [reflexivity |]. split; [| exact Hk].
  rewrite predict_guards_pass by assumption.
  rewrite Hproba. cbn [obind EmlError_eqb negb deref].
  rewrite Hscan. reflexivity.
Qed.

(** X4: whatever the model and the arguments, a result of
    [eml_trees_predict] is [-3] (exactly when a length check fails), [-1], or
    a class index below [n_classes], itself at most 30: never [-2], the code
    of [EmlTreesInvalidClassPredicted], and never an index outside the
    classes of the model. *)
Theorem X4_predict_result_range fuel forest features features_length k :
  eml_trees_predict fuel forest features features_length = Done k ->
  (k = -3 /\
   (features_length <> n_features forest \/ n_classes forest > 30)) \/
  (features_length = n_features forest /\ n_classes forest <= 30 /\
   (k = -1 \/ 0 <= k < n_classes forest)).
Proof.
  intros Hrun.
  destruct (Z.eq_dec features_length (n_features forest)) as [Hfl | Hfl].
  2: { left. unfold eml_trees_predict in Hrun.
       destruct (Z.eqb_spec features_length (n_features forest));
         [contradiction |].
       cbn in Hrun. injection Hrun as <-. auto. }
  destruct (Z_le_gt_dec (n_classes forest) 30) as [Hmax | Hmax].
  2: { left. unfold eml_trees_predict in Hrun.
       destruct (Z.eqb_spec features_length (n_features forest));
         [| contradiction].
       cbn [negb] in Hrun. rewrite Z.gtb_ltb in Hrun.
       destruct (Z.ltb_spec EMTREES_MAX_CLASSES (n_classes forest));
         [| unfold EMTREES_MAX_CLASSES in *; lia].
       cbn in Hrun. injection Hrun as <-. auto. }
  right. split; [assumption | split; [assumption |]].
  pose proof Hrun as Hrun'.
  rewrite predict_guards_pass in Hrun' by assumption.
  apply obind_Done_inv in Hrun' as ([err scores] & Hproba & Hrest).
  destruct err; cbn [EmlError_eqb negb] in Hrest;
    try (injection Hrest as <-; left; reflexivity).
  destruct (predict_of_scores _ _ _ _ _ Hfl Hmax Hproba)
    as (votes & k' & _ & Hpredict & Hk').
  rewrite Hrun in Hpredict. injection Hpredict as <-.
  destruct Hk' as [[-> _] | [Hrange _]]; [left | right]; (reflexivity || lia).
Qed.

Lemma X4_witness :
  (0 = -3 /\
   (1 <> n_features scenario_tie \/ n_classes scenario_tie > 30)) \/
  (1 = n_features scenario_tie /\ n_classes scenario_tie <= 30 /\
   (0 = -1 \/ 0 <= 0 < n_classes scenario_tie)).
Proof.
  apply (X4_predict_result_range 1 scenario_tie (Some [5]) 1 0).
  vm_compute. reflexivity.
Defined.

Lemma predict_proba_unsupported fuel self feats features_length buf :
  leaf_bits self <> 0 -> leaf_bits self <> 8 ->
  n_classes self <= Z.of_nat (length buf) ->
  eml_trees_predict_proba fuel self (Some feats) features_length
    (Some buf) (n_classes self)
  = Done (EmlUnsupported,
          Some (replicate (Z.to_nat (n_classes self)) f32_zero
                ++ drop (Z.to_nat (n_classes self)) buf)).
Proof.
  intros Hne0 Hne8 Hlen.
  unfold eml_trees_predict_proba, EML_PRECONDITION, eml_trees_outputs_proba.
  rewrite !bool_decide_eq_true_2 by eauto.
  rewrite Z.eqb_refl. cbn [deref obind]. unfold predict_proba_accumulate.
  rewrite zero_fill_loop.
  destruct (decide (n_classes self <= Z.of_nat (length buf))); [| lia].
  cbn [obind].
  destruct (Z.eqb_spec (leaf_bits self) 0); [contradiction |].
  destruct (Z.eqb_spec (leaf_bits self) 8); [contradiction |].
  reflexivity.
Qed.

(** X5: once the length checks pass, [eml_trees_predict] folds every
    failure of [eml_trees_predict_proba] into [-EmlTreesUnknownError = -1]:
    a null feature pointer, and a model whose [leaf_bits] is neither 0 nor 8,
    a regression model among them. The value is the one that also means that
    no class was selected. *)
Theorem X5_predict_folds_failures fuel forest features features_length :
  features_length = n_features forest ->
  n_classes forest <= 30 ->
  features = None \/ (leaf_bits forest <> 0 /\ leaf_bits forest <> 8) ->
  eml_trees_predict fuel forest features features_length = Done (-1).
Proof.
  intros Hfl Hmax Hfail. rewrite predict_guards_pass by assumption.
  destruct features as [feats |].
  - destruct Hfail as [Hnone | [Hne0 Hne8]]; [discriminate |].
    rewrite predict_proba_unsupported
      by (assumption || (rewrite length_replicate;
                         unfold EMTREES_MAX_CLASSES; lia)).
    reflexivity.
  - reflexivity.
Qed.

Lemma X5_witness :
  eml_trees_predict 0 scenario_regression (Some [5]) 1 = Done (-1).
Proof.
  apply (X5_predict_folds_failures 0 scenario_regression (Some [5]) 1).
  - reflexivity.
  - simpl. lia.
  - right. simpl. lia.
Defined.

(** ** Ensembles without trees *)

Lemma replicate_fmap_take_app {A} (f : A -> A) (n : nat) (x : A)
    (rest : list A) :
  (f <$> take n (replicate n x ++ rest)) ++ drop n (replicate n x ++ rest)
  = replicate n (f x) ++ rest.
Proof.
  rewrite take_app_length', drop_app_length'
    by (now rewrite length_replicate).
  now rewrite fmap_replicate.
Qed.

(** X6: for a classification model without trees ([n_trees = 0]) the mean is
    [0 / 0]: [eml_trees_predict_proba] succeeds and every score is NaN, not
    zero, and [eml_trees_predict] selects no class and returns [-1]. *)
Theorem X6_no_trees_classification fuel self feats features_length buf :
  n_trees self = 0 ->
  leaf_bits self = 0 \/ leaf_bits self = 8 ->
  n_classes self <= Z.of_nat (length buf) ->
  eml_trees_predict_proba fuel self (Some feats) features_length
    (Some buf) (n_classes self)
  = Done (EmlOk,
          Some (replicate (Z.to_nat (n_classes self)) f32_nan
                ++ drop (Z.to_nat (n_classes self)) buf)) /\
  (features_length = n_features self -> n_classes self <= 30 ->
   eml_trees_predict fuel self (Some feats) features_length = Done (-1)).
Proof.
  intros Htrees Hbits Hlen.
  assert (Hproba : forall buf', n_classes self <= Z.of_nat (length buf') ->
    eml_trees_predict_proba fuel self (Some feats) features_length
      (Some buf') (n_classes self)
    = Done (EmlOk,
            Some (replicate (Z.to_nat (n_classes self)) f32_nan
                  ++ drop (Z.to_nat (n_classes self)) buf'))).
  { intros buf' Hlen'.
    unfold eml_trees_predict_proba, EML_PRECONDITION, eml_trees_outputs_proba.
    rewrite !bool_decide_eq_true_2 by eauto.
    rewrite Z.eqb_refl. cbn [deref obind]. unfold predict_proba_accumulate.
    rewrite zero_fill_loop.
    destruct (decide (n_classes self <= Z.of_nat (length buf'))); [| lia].
    cbn [obind]. rewrite Htrees.
    assert (Hacc : forall r : outcome (EmlError * list f32),
      (if leaf_bits self =? 0
       then Done (EmlOk, replicate (Z.to_nat (n_classes self)) f32_zero
                         ++ drop (Z.to_nat (n_classes self)) buf')
       else if leaf_bits self =? 8
       then Done (EmlOk, replicate (Z.to_nat (n_classes self)) f32_zero
                         ++ drop (Z.to_nat (n_classes self)) buf')
       else r)
      = Done (EmlOk, replicate (Z.to_nat (n_classes self)) f32_zero
                     ++ drop (Z.to_nat (n_classes self)) buf')).
    { intros r. destruct Hbits as [-> | ->]; reflexivity. }
    unfold for_loop at 1 2. cbn [Z.to_nat for_from obind].
    rewrite Hacc. cbn [obind].
    rewrite predict_proba_mean_Done
      by (rewrite length_app, length_replicate, length_drop; lia).
    rewrite Htrees, replicate_fmap_take_app. reflexivity. }
  split; [apply Hproba; assumption |].
  intros Hfl Hmax.
  destruct (predict_of_scores fuel self (Some feats) features_length
              (Some (replicate (Z.to_nat (n_classes self)) f32_nan
                     ++ drop (Z.to_nat (n_classes self))
                          (replicate (Z.to_nat EMTREES_MAX_CLASSES)
                             f32_zero))) Hfl Hmax)
    as (votes & k & [= <-] & Hpredict & Hk).
  { apply Hproba. rewrite length_replicate. unfold EMTREES_MAX_CLASSES. lia. }
  rewrite Hpredict. f_equal.
  destruct Hk as [[-> _] | (Hrange & vk & Hvk & Hpos & _)]; [reflexivity |].
  rewrite lookup_app_l in Hvk by (rewrite length_replicate; lia).
  apply lookup_replicate in Hvk as [-> _]. discriminate Hpos.
Qed.

Lemma X6_witness :
  eml_trees_predict_proba 0
    no_trees_classifier
    (Some [5]) 1 (Some [f32_one; f32_one; f32_one]) 2
  = Done (EmlOk, Some [f32_nan; f32_nan; f32_one]) /\
  (1 = 1 -> 2 <= 30 ->
   eml_trees_predict 0
     no_trees_classifier
     (Some [5]) 1 = Done (-1)).
Proof.
  apply (X6_no_trees_classification 0
           no_trees_classifier
           [5] 1 [f32_one; f32_one; f32_one]).
  - reflexivity.
  - left. reflexivity.
  - simpl. lia.
Defined.

(** X7: for a regression model without trees [eml_trees_regress] succeeds
    and writes [0 / 0], NaN, to [out[0]], and [eml_trees_regress1] returns
    NaN: on such a model the NaN of [eml_trees_regress1] does not tell a
    failure. *)
Theorem X7_no_trees_regression
    fuel forest features features_length x buf out_length :
  n_trees forest = 0 ->
  leaf_bits forest = 32 ->
  1 <= out_length ->
  eml_trees_regress fuel forest features features_length
    (Some (x :: buf)) out_length = Done (EmlOk, Some (f32_nan :: buf)) /\
  eml_trees_regress1 fuel forest features features_length = Done f32_nan.
Proof.
  intros Htrees Hbits Hol.
  assert (Hregress : forall y rest ol, 1 <= ol ->
    eml_trees_regress fuel forest features features_length
      (Some (y :: rest)) ol = Done (EmlOk, Some (f32_nan :: rest))).
  { intros y rest ol Hol'. unfold eml_trees_regress.
    destruct (Z.ltb_spec ol 1); [lia |].
    rewrite Hbits, Htrees. reflexivity. }
  split; [apply Hregress; assumption |].
  unfold eml_trees_regress1. rewrite Hregress by lia. reflexivity.
Qed.

Lemma X7_witness :
  eml_trees_regress 0 no_trees_regressor None 1
    (Some [f32_one; f32_one]) 2 = Done (EmlOk, Some [f32_nan; f32_one]) /\
  eml_trees_regress1 0 no_trees_regressor None 1 = Done f32_nan.
Proof.
  apply (X7_no_trees_regression 0 no_trees_regressor None 1 f32_one
           [f32_one] 2).
  - reflexivity.
  - reflexivity.
  - lia.
Defined.

(** ** Positive quotients *)

Lemma f32_of_Z_finite (k : Z) :
  1 <= k <= 2 ^ 24 ->
  exists m e,
    f32_of_Z k = S754_finite false m e /\
    Z.pos (digits2_pos m) = 24 /\ -23 <= e <= 1.
Proof.
  intros Hk. destruct (Z.eq_dec k (2 ^ 24)) as [-> | Hne].
  { exists 8388608%positive, 1. repeat split; (reflexivity || lia). }
  destruct k as [| p | p]; try lia.
  assert (Hd : Z.pos (digits2_pos p) <= 24) by (apply digits2_bound; lia).
  pose proof (Pos2Z.is_pos (digits2_pos p)) as Hd0.
  rewrite f32_of_Z_pos by assumption.
  eexists _, _. split; [reflexivity |].
  rewrite digits2_shiftl_nat. lia.
Qed.

Lemma f32_add_zero_r (k : Z) :
  0 <= k <= 2 ^ 24 -> f32_add (f32_of_Z k) (f32_of_Z 0) = f32_of_Z k.
Proof.
  intros Hk. destruct (Z.eq_dec k 0) as [-> | Hne]; [reflexivity |].
  destruct (f32_of_Z_finite k ltac:(lia)) as (m & e & -> & _).
  reflexivity.
Qed.

Lemma digits2_upper (p : positive) : Z.pos p < 2 ^ Z.pos (digits2_pos p).
Proof.
  induction p as [p IH | p IH |]; cbn [digits2_pos];
    rewrite ?Pos2Z.inj_succ, ?Z.pow_succ_r by lia; lia.
Qed.

Lemma shr_iter_positive (n : nat) :
  forall (m : positive) (r s : bool),
    Z.of_nat n < Z.pos (digits2_pos m) ->
    exists m' r' s',
      Nat.iter n shr_1 {| shr_m := Z.pos m; shr_r := r; shr_s := s |}
      = {| shr_m := Z.pos m'; shr_r := r'; shr_s := s' |}.
Proof.
  induction n as [| n IH]; intros m r s Hn.
  - exists m, r, s. reflexivity.
  - rewrite Nat.iter_succ_r.
    destruct m as [p | p |]; cbn [digits2_pos] in Hn;
      rewrite ?Pos2Z.inj_succ in Hn; try lia;
      cbn [shr_1]; apply IH; lia.
Qed.

Lemma shr_fexp_positive (m : positive) (e : Z) (l : location) :
  -149 <= e ->
  exists m' r s e',
    shr_fexp 24 128 (Z.pos m) e l
    = ({| shr_m := Z.pos m'; shr_r := r; shr_s := s |}, e') /\ -149 <= e'.
Proof.
  intros He. unfold shr_fexp, fexp, emin. cbn [Zdigits2]. rewrite shr_eq.
  pose proof (Pos2Z.is_pos (digits2_pos m)) as Hd.
  assert (Hrec : exists r s, shr_record_of_loc (Z.pos m) l
                             = {| shr_m := Z.pos m; shr_r := r; shr_s := s |}).
  { destruct l as [| []]; eexists _, _; reflexivity. }
  destruct Hrec as (r & s & ->).
  destruct (Z.ltb_spec 0 (Z.max (Z.pos (digits2_pos m) + e - 24)
                            (3 - 128 - 24) - e)) as [Hn | Hn].
  - destruct (shr_iter_positive
                (Z.to_nat (Z.max (Z.pos (digits2_pos m) + e - 24)
                             (3 - 128 - 24) - e)) m r s)
      as (m' & r' & s' & ->); [lia |].
    eexists _, _, _, _. split; [reflexivity | lia].
  - eexists _, _, _, _. split; [reflexivity | lia].
Qed.

Lemma binary_round_aux_positive (m : positive) (e : Z) (l : location) :
  -149 <= e ->
  f32_gt (binary_round_aux 24 128 false (Z.pos m) e l) f32_zero = true.
Proof.
  intros He. unfold binary_round_aux.
  destruct (shr_fexp_positive m e l He) as (m1 & r1 & s1 & e1 & -> & He1).
  cbn [shr_m].
  assert (Hround : exists m2,
    round_nearest_even (Z.pos m1)
      (loc_of_shr_record {| shr_m := Z.pos m1; shr_r := r1; shr_s := s1 |})
    = Z.pos m2).
  { destruct r1, s1; cbn [loc_of_shr_record round_nearest_even];
      try destruct (Z.even (Z.pos m1)); eexists; reflexivity. }
  destruct Hround as (m2 & ->).
  destruct (shr_fexp_positive m2 e1 loc_Exact He1)
    as (m3 & r3 & s3 & e3 & -> & _).
  cbn [shr_m]. destruct (e3 <=? 128 - 24); reflexivity.
Qed.

Lemma f32_div_positive (a n : Z) :
  1 <= a <= 2 ^ 24 -> 1 <= n <= 2 ^ 24 ->
  f32_gt (f32_div (f32_of_Z a) (f32_of_Z n)) f32_zero = true.
Proof.
  intros Ha Hn.
  destruct (f32_of_Z_finite a Ha) as (ma & ea & -> & Hda & Hea).
  destruct (f32_of_Z_finite n Hn) as (mn & en & -> & Hdn & Hen).
  unfold f32_div, f32_prec, f32_emax, SFdiv, SFdiv_core_binary, fexp, emin.
  cbn [Zdigits2 xorb]. rewrite Hda, Hdn.
  replace (Z.min (Z.max (24 + ea - (24 + en) - 24) (3 - 128 - 24)) (ea - en))
    with (ea - en - 24) by lia.
  replace (ea - en - (ea - en - 24)) with 24 by lia.
  cbv iota.
  destruct (Z.div_eucl (Z.shiftl (Z.pos ma) 24) (Z.pos mn)) as [q r] eqn:Hdiv.
  assert (Hq : q = Z.shiftl (Z.pos ma) 24 / Z.pos mn).
  { unfold Z.div. now rewrite Hdiv. }
  assert (Hqpos : 0 < q).
  { rewrite Hq. apply Z.div_str_pos. split; [lia |].
    rewrite Z.shiftl_mul_pow2 by lia.
    pose proof (digits2_upper mn) as Hup. rewrite Hdn in Hup. lia. }
  destruct q as [| q | q]; try lia.
  apply binary_round_aux_positive. lia.
Qed.

Lemma f32_div_zero (n : Z) :
  1 <= n <= 2 ^ 24 -> f32_div f32_zero (f32_of_Z n) = f32_zero.
Proof.
  intros Hn. destruct (f32_of_Z_finite n Hn) as (m & e & -> & _).
  reflexivity.
Qed.

(** ** The soft vote *)

Lemma soft_classes_from (bytes : list Z) (offset : nat) (todo : nat) :
  forall (done xs rest : list f32),
    length xs = todo ->
    (offset + length done + todo <= length bytes)%nat ->
    for_from todo (Z.of_nat (length done))
      (fun class_no out =>
         do byte <- load bytes (Z.of_nat offset + class_no) ;
         let class_proportion := f32_of_Z (Z.quot byte 255) in
         do cur <- load out class_no ;
         store out class_no (f32_add cur class_proportion))
      (done ++ xs ++ rest)
    = Done (done
            ++ zip_with f32_add xs
                 ((fun b => f32_of_Z (Z.quot b 255))
                    <$> take todo (drop (offset + length done) bytes))
            ++ rest).
Proof.
  induction todo as [| todo IH]; intros done xs rest Hxs Hlen.
  - destruct xs; [| discriminate]. reflexivity.
  - destruct xs as [| x xs]; [discriminate |].
    injection Hxs as Hxs.
    destruct (lookup_lt_is_Some_2 bytes (offset + length done)) as [b Hb];
      [lia |].
    cbn [for_from]. rewrite <- app_comm_cons.
    rewrite (load_Done bytes (Z.of_nat offset + Z.of_nat (length done)) b)
      by (lia || (rewrite <- Nat2Z.inj_add, Nat2Z.id; exact Hb)).
    cbn [obind].
    rewrite (load_Done (done ++ x :: xs ++ rest) (Z.of_nat (length done)) x)
      by (lia || (rewrite Nat2Z.id; apply list_lookup_middle; reflexivity)).
    cbn [obind].
    rewrite store_Done by (rewrite length_app; cbn [length]; lia).
    cbn [obind]. rewrite Nat2Z.id.
    rewrite insert_app_r_alt, Nat.sub_diag by lia. cbn [insert list_insert].
    pose proof (IH (done ++ [f32_add x (f32_of_Z (Z.quot b 255))]) xs rest
                  Hxs) as H.
    rewrite length_app in H. cbn [length] in H.
    replace (Z.of_nat (length done) + 1)
      with (Z.of_nat (length done + 1)) by lia.
    rewrite <- !app_assoc in H. cbn [app] in H.
    rewrite H by lia.
    rewrite (drop_S _ _ _ Hb). cbn [take fmap list_fmap zip_with].
    replace (offset + (length done + 1))%nat
      with (S (offset + length done)) by lia.
    reflexivity.
Qed.

Lemma quot_255 (b : Z) :
  0 <= b <= 255 -> Z.quot b 255 = if b =? 255 then 1 else 0.
Proof.
  intros Hb. destruct (Z.eqb_spec b 255) as [-> | Hne]; [reflexivity |].
  apply Z.quot_small. lia.
Qed.

Lemma soft_units_counts (counts bs : list Z) (K : Z) :
  Forall (fun c => 0 <= c <= K) counts ->
  K + 1 <= 2 ^ 24 ->
  Forall (fun b => 0 <= b <= 255) bs ->
  zip_with f32_add (f32_of_Z <$> counts)
    ((fun b => f32_of_Z (Z.quot b 255)) <$> bs)
  = f32_of_Z <$> zip_with Z.add counts
                   ((fun b => if b =? 255 then 1 else 0) <$> bs) /\
  Forall (fun c => 0 <= c <= K + 1)
    (zip_with Z.add counts ((fun b => if b =? 255 then 1 else 0) <$> bs)).
Proof.
  intros Hcounts HK. revert bs.
  induction Hcounts as [| c counts Hc Hcounts IH]; intros bs Hbs.
  - split; [reflexivity | constructor].
  - destruct Hbs as [| b bs Hb Hbs]; [split; [reflexivity | constructor] |].
    destruct (IH bs Hbs) as [Heq Hall].
    cbn [fmap list_fmap zip_with] in *. rewrite Heq. split.
    + f_equal. rewrite quot_255 by assumption.
      destruct (b =? 255).
      * apply f32_add_one_le. lia.
      * rewrite Z.add_0_r. apply f32_add_zero_r. lia.
    + constructor; [destruct (b =? 255); lia | exact Hall].
Qed.

Lemma leaf_bytes_typedb_spec forest :
  leaf_bytes_typedb forest = true ->
  Forall (fun b => 0 <= b <= 255) (leaves forest).
Proof.
  unfold leaf_bytes_typedb. rewrite forallb_forall, Forall_forall.
  intros Hall b Hb. specialize (Hall b). rewrite <- list_elem_of_In in Hall.
  specialize (Hall Hb). apply andb_prop in Hall. lia.
Qed.

Section SoftVote.

Variables (forest : EmlTrees) (feats : list Z) (depth : nat).
Variable features_length : Z.
Hypothesis Hwf : forest_wf forest feats depth.
Hypothesis Hbits : leaf_bits forest = 8.
Hypothesis Hbytes : Forall (fun b => 0 <= b <= 255) (leaves forest).
Hypothesis Hclasses : 0 <= n_classes forest <= 127.

Lemma soft_leaves_length :
  n_leaves forest * n_classes forest = Z.of_nat (length (leaves forest)).
Proof.
  pose proof (wf_leaves _ _ _ Hwf) as Hlen. unfold bytes_per_leaf in Hlen.
  rewrite Hbits in Hlen. exact Hlen.
Qed.

Lemma soft_leaf_bytes_spec (l : Z) :
  0 <= l < n_leaves forest ->
  length (soft_leaf_bytes forest l) = Z.to_nat (n_classes forest) /\
  Forall (fun b => 0 <= b <= 255) (soft_leaf_bytes forest l).
Proof.
  intros Hl. pose proof soft_leaves_length as Hlen. unfold soft_leaf_bytes.
  split.
  - rewrite length_take, length_drop. nia.
  - apply Forall_take, Forall_drop, Hbytes.
Qed.

Lemma soft_units_length (l : Z) :
  0 <= l < n_leaves forest ->
  length (soft_units forest l) = Z.to_nat (n_classes forest).
Proof.
  intros Hl. unfold soft_units. rewrite length_fmap.
  now apply soft_leaf_bytes_spec.
Qed.

Lemma soft_vote_tree_wf (i : Z) (counts : list Z) (rest : list f32) (K : Z) :
  0 <= i < n_trees forest ->
  length counts = Z.to_nat (n_classes forest) ->
  Forall (fun c => 0 <= c <= K) counts ->
  K + 1 <= 2 ^ 24 ->
  exists root l,
    tree_roots forest !! Z.to_nat i = Some root /\
    spec_traverse (nodes forest) feats root l /\
    0 <= l < n_leaves forest /\
    Forall (fun c => 0 <= c <= K + 1)
      (zip_with Z.add counts (soft_units forest l)) /\
    forall fuel, (depth <= fuel)%nat ->
      soft_vote_tree fuel forest (Some feats) features_length i
        ((f32_of_Z <$> counts) ++ rest)
      = Done ((f32_of_Z <$> zip_with Z.add counts (soft_units forest l))
              ++ rest).
Proof.
  intros Hi Hlen Hcounts HK.
  destruct (tree_of_forest forest feats depth features_length Hwf i Hi)
    as (root & l & Hroot & Hspec & Hl & Hsmall & Hrun).
  destruct (soft_leaf_bytes_spec l Hl) as [Hblen Hbtyped].
  destruct (soft_units_counts counts (soft_leaf_bytes forest l) K
              Hcounts HK Hbtyped) as [Hzip Hall].
  exists root, l. repeat split; try assumption; try lia.
  intros fuel Hfuel. unfold soft_vote_tree.
  rewrite (load_Done (tree_roots forest) i root) by (lia || assumption).
  cbn [obind]. rewrite (Hrun fuel Hfuel). cbn [obind].
  rewrite Z.mul_1_l.
  rewrite int32_op_Done by (unfold INT32_MIN, INT32_MAX; nia).
  cbn [obind]. unfold for_loop.
  pose proof soft_leaves_length as Hleaves.
  pose proof (soft_classes_from (leaves forest)
                (Z.to_nat (l * n_classes forest))
                (Z.to_nat (n_classes forest)) [] (f32_of_Z <$> counts) rest)
    as Hloop.
  cbn [length app] in Hloop. change (Z.of_nat 0) with 0 in Hloop.
  rewrite Z2Nat.id, Nat.add_0_r in Hloop by nia.
  rewrite Hloop by (rewrite ?length_fmap; nia).
  fold (soft_leaf_bytes forest l). rewrite Hzip. reflexivity.
Qed.

Lemma soft_from_wf (rest : list f32) (todo : nat) :
  forall (i : nat) (counts : list Z) (K : Z),
    Z.of_nat (i + todo) <= n_trees forest ->
    length counts = Z.to_nat (n_classes forest) ->
    Forall (fun c => 0 <= c <= K) counts ->
    K + Z.of_nat todo <= 2 ^ 24 ->
    exists ls,
      Forall2 (spec_traverse (nodes forest) feats)
        (take todo (drop i (tree_roots forest))) ls /\
      Forall (fun l => 0 <= l < n_leaves forest) ls /\
      forall fuel, (depth <= fuel)%nat ->
        for_from todo (Z.of_nat i)
          (soft_vote_tree fuel forest (Some feats) features_length)
          ((f32_of_Z <$> counts) ++ rest)
        = Done ((f32_of_Z
                   <$> foldl (fun counts l =>
                                zip_with Z.add counts (soft_units forest l))
                         counts ls)
                ++ rest).
Proof.
  induction todo as [| todo IH]; intros i counts K Hi Hlen Hcounts HK.
  - exists []. rewrite take_0. repeat split; constructor.
  - destruct (soft_vote_tree_wf (Z.of_nat i) counts rest K)
      as (root & l & Hroot & Hspec & Hl & Hall & Hrun);
      try assumption; try lia.
    rewrite Nat2Z.id in Hroot.
    destruct (IH (S i) (zip_with Z.add counts (soft_units forest l)) (K + 1))
      as (ls & Hls & Hrange & Hloop); try assumption; try lia.
    { rewrite length_zip_with_l_eq; [assumption |].
      now rewrite soft_units_length. }
    exists (l :: ls). rewrite (drop_S _ _ _ Hroot). cbn [take].
    split; [constructor; assumption |].
    split; [constructor; assumption |].
    intros fuel Hfuel. cbn [for_from]. rewrite (Hrun fuel Hfuel).
    cbn [obind foldl].
    replace (Z.of_nat i + 1) with (Z.of_nat (S i)) by lia.
    apply Hloop. exact Hfuel.
Qed.

Lemma soft_predict_proba_wf (buf : list f32) :
  n_trees forest <= 2 ^ 24 ->
  n_classes forest <= Z.of_nat (length buf) ->
  exists ls,
    Forall2 (spec_traverse (nodes forest) feats)
      (take (Z.to_nat (n_trees forest)) (tree_roots forest)) ls /\
    Forall (fun l => 0 <= l < n_leaves forest) ls /\
    forall fuel, (depth <= fuel)%nat ->
      predict_proba_accumulate fuel forest (Some feats) features_length
        buf (n_classes forest)
      = Done (EmlOk, (f32_of_Z <$> soft_counts forest ls)
                     ++ drop (Z.to_nat (n_classes forest)) buf) /\
      eml_trees_predict_proba fuel forest (Some feats) features_length
        (Some buf) (n_classes forest)
      = Done (EmlOk,
              Some (((fun a => f32_div a (f32_of_Z (n_trees forest)))
                       <$> (f32_of_Z <$> soft_counts forest ls))
                    ++ drop (Z.to_nat (n_classes forest)) buf)).
Proof.
  intros Hmax Hbuf. set (n := Z.to_nat (n_classes forest)).
  destruct (soft_from_wf (drop n buf) (Z.to_nat (n_trees forest)) 0
              (replicate n 0) 0)
    as (ls & Hls & Hrange & Hloop).
  { pose proof (wf_trees _ _ _ Hwf). lia. }
  { apply length_replicate. }
  { apply Forall_replicate. lia. }
  { pose proof (wf_trees _ _ _ Hwf). lia. }
  exists ls. rewrite drop_0 in Hls.
  split; [assumption | split; [assumption |]].
  intros fuel Hfuel.
  assert (Hacc :
    predict_proba_accumulate fuel forest (Some feats) features_length
      buf (n_classes forest)
    = Done (EmlOk, (f32_of_Z <$> soft_counts forest ls) ++ drop n buf)).
  { unfold predict_proba_accumulate. rewrite zero_fill_loop.
    destruct (decide (n_classes forest <= Z.of_nat (length buf))); [| lia].
    cbn [obind]. rewrite Hbits. cbn [Z.eqb Pos.eqb]. unfold for_loop.
    fold n. specialize (Hloop fuel Hfuel).
    rewrite fmap_replicate in Hloop.
    change (f32_of_Z 0) with f32_zero in Hloop.
    change (Z.of_nat 0) with 0 in Hloop. rewrite Hloop. reflexivity. }
  split; [exact Hacc |].
  unfold eml_trees_predict_proba, EML_PRECONDITION, eml_trees_outputs_proba.
  rewrite !bool_decide_eq_true_2 by eauto.
  rewrite Z.eqb_refl. cbn [deref obind]. rewrite Hacc. cbn [obind].
  assert (Hclen : length (soft_counts forest ls) = n).
  { unfold soft_counts. fold n. clear Hloop Hacc Hls.
    assert (Hgen : forall counts, length counts = n ->
      length (foldl (fun counts l =>
                       zip_with Z.add counts (soft_units forest l))
                counts ls) = n).
    { induction Hrange as [| l ls Hl Hrange IH]; intros counts Hc;
        [exact Hc |].
      cbn [foldl]. apply IH.
      rewrite length_zip_with_l_eq; [assumption |].
      rewrite soft_units_length by assumption. exact Hc. }
    apply Hgen, length_replicate. }
  rewrite predict_proba_mean_Done
    by (rewrite length_app, length_fmap, length_drop; lia).
  fold n. rewrite take_app_length', drop_app_length'
    by (rewrite length_fmap; lia).
  reflexivity.
Qed.

End SoftVote.

(** X8: the soft vote divides each leaf byte by 255 as an integer, so it
    counts saturated bytes: for a well-formed soft-vote model of at most
    [2^24] trees the score of a class is the number of trees whose leaf holds
    the byte 255 for that class, divided by [n_trees]; every other byte
    counts as zero. *)
Theorem X8_soft_vote_counts_bytes_255
    forest feats features_length depth buf :
  forest_wfb forest feats depth = true ->
  leaf_bits forest = 8 ->
  leaf_bytes_typedb forest = true ->
  0 <= n_classes forest <= 127 ->
  n_trees forest <= 2 ^ 24 ->
  n_classes forest <= Z.of_nat (length buf) ->
  exists ls,
    Forall2 (spec_traverse (nodes forest) feats)
      (take (Z.to_nat (n_trees forest)) (tree_roots forest)) ls /\
    forall fuel, (depth <= fuel)%nat ->
      eml_trees_predict_proba fuel forest (Some feats) features_length
        (Some buf) (n_classes forest)
      = Done (EmlOk,
              Some (((fun a => f32_div a (f32_of_Z (n_trees forest)))
                       <$> (f32_of_Z <$> soft_counts forest ls))
                    ++ drop (Z.to_nat (n_classes forest)) buf)).
Proof.
  intros Hwf Hbits Hbytes Hclasses Hmax Hbuf.
  apply forest_wfb_wf in Hwf. apply leaf_bytes_typedb_spec in Hbytes.
  destruct (soft_predict_proba_wf forest feats depth features_length
              Hwf Hbits Hbytes Hclasses buf Hmax Hbuf)
    as (ls & Hls & _ & Hrun).
  exists ls. split; [assumption |].
  intros fuel Hfuel. apply Hrun, Hfuel.
Qed.

Lemma X8_witness :
  exists ls,
    Forall2 (spec_traverse (nodes scenario_soft) [5])
      (take (Z.to_nat (n_trees scenario_soft)) (tree_roots scenario_soft))
      ls /\
    forall fuel, (1 <= fuel)%nat ->
      eml_trees_predict_proba fuel scenario_soft (Some [5]) 1
        (Some [f32_nan; f32_nan]) (n_classes scenario_soft)
      = Done (EmlOk,
              Some (((fun a => f32_div a (f32_of_Z (n_trees scenario_soft)))
                       <$> (f32_of_Z <$> soft_counts scenario_soft ls))
                    ++ drop (Z.to_nat (n_classes scenario_soft))
                         [f32_nan; f32_nan])).
Proof.
  apply (X8_soft_vote_counts_bytes_255 scenario_soft [5] 1 1%nat
           [f32_nan; f32_nan]).
  - reflexivity.
  - reflexivity.
  - reflexivity.
  - simpl. lia.
  - vm_compute. discriminate.
  - simpl. lia.
Defined.

Example scenario_soft_scores :
  soft_counts scenario_soft [0; 1; 1] = [1; 2] /\
  eml_trees_predict_proba 1 scenario_soft (Some [5]) 1
    (Some [f32_nan; f32_nan]) 2
  = Done (EmlOk, Some [f32_div (f32_of_Z 1) (f32_of_Z 3);
                       f32_div (f32_of_Z 2) (f32_of_Z 3)]).
Proof. split; vm_compute; reflexivity. Qed.

Lemma units_below_255 (bs : list Z) :
  Forall (fun b => 0 <= b <= 254) bs ->
  (fun b => if b =? 255 then 1 else 0) <$> bs = replicate (length bs) 0.
Proof.
  induction 1 as [| b bs Hb Hbs IH]; [reflexivity |].
  cbn [fmap list_fmap length replicate]. f_equal; [| exact IH].
  destruct (Z.eqb_spec b 255); [lia | reflexivity].
Qed.

Lemma soft_counts_below_255 forest (ls : list Z) :
  Forall (fun b => 0 <= b <= 254) (leaves forest) ->
  Forall (fun l => length (soft_units forest l)
                   = Z.to_nat (n_classes forest)) ls ->
  soft_counts forest ls = replicate (Z.to_nat (n_classes forest)) 0.
Proof.
  intros Hbytes Hls. unfold soft_counts.
  induction Hls as [| l ls Hl Hls IH]; [reflexivity |].
  cbn [foldl].
  assert (Hunits : soft_units forest l
                   = replicate (Z.to_nat (n_classes forest)) 0).
  { rewrite <- Hl. unfold soft_units. rewrite length_fmap.
    apply units_below_255, Forall_take, Forall_drop, Hbytes. }
  rewrite Hunits, zip_with_replicate_l by (now rewrite length_replicate).
  rewrite fmap_replicate. exact IH.
Qed.

(** X9: hence a well-formed soft-vote model none of whose leaf bytes is 255
    scores zero for every class, whatever its proportions are, and
    [eml_trees_predict] selects no class on it and returns [-1]. *)
Theorem X9_soft_vote_below_255_selects_nothing
    forest feats features_length depth :
  forest_wfb forest feats depth = true ->
  leaf_bits forest = 8 ->
  leaf_bytes_below_255b forest = true ->
  0 <= n_classes forest <= 30 ->
  1 <= n_trees forest <= 2 ^ 24 ->
  forall fuel, (depth <= fuel)%nat ->
    (forall buf, n_classes forest <= Z.of_nat (length buf) ->
       eml_trees_predict_proba fuel forest (Some feats) features_length
         (Some buf) (n_classes forest)
       = Done (EmlOk,
               Some (replicate (Z.to_nat (n_classes forest)) f32_zero
                     ++ drop (Z.to_nat (n_classes forest)) buf))) /\
    (features_length = n_features forest ->
     eml_trees_predict fuel forest (Some feats) features_length = Done (-1)).
Proof.
  intros Hwf Hbits Hbelow Hclasses Htrees fuel Hfuel.
  apply forest_wfb_wf in Hwf.
  assert (Hbytes : Forall (fun b => 0 <= b <= 254) (leaves forest)).
  { unfold leaf_bytes_below_255b in Hbelow.
    rewrite forallb_forall in Hbelow. rewrite Forall_forall.
    intros b Hb. specialize (Hbelow b). rewrite <- list_elem_of_In in Hbelow.
    specialize (Hbelow Hb). apply andb_prop in Hbelow. lia. }
  assert (Htyped : Forall (fun b => 0 <= b <= 255) (leaves forest)).
  { eapply Forall_impl; [exact Hbytes |]. cbn beta. intros b Hb. lia. }
  assert (Hproba : forall buf, n_classes forest <= Z.of_nat (length buf) ->
    eml_trees_predict_proba fuel forest (Some feats) features_length
      (Some buf) (n_classes forest)
    = Done (EmlOk,
            Some (replicate (Z.to_nat (n_classes forest)) f32_zero
                  ++ drop (Z.to_nat (n_classes forest)) buf))).
  { intros buf Hbuf.
    destruct (soft_predict_proba_wf forest feats depth features_length
                Hwf Hbits Htyped ltac:(lia) buf ltac:(lia) Hbuf)
      as (ls & _ & Hrange & Hrun).
    destruct (Hrun fuel Hfuel) as [_ ->].
    rewrite soft_counts_below_255; [| assumption |].
    - rewrite !fmap_replicate. change (f32_of_Z 0) with f32_zero.
      rewrite f32_div_zero by assumption. reflexivity.
    - eapply Forall_impl; [exact Hrange |]. cbn beta. intros l Hl.
      apply (soft_units_length forest feats depth Hwf Hbits Htyped
               ltac:(lia) l Hl). }
  split; [exact Hproba |].
  intros Hfl.
  destruct (predict_of_scores fuel forest (Some feats) features_length
              (Some (replicate (Z.to_nat (n_classes forest)) f32_zero
                     ++ drop (Z.to_nat (n_classes forest))
                          (replicate (Z.to_nat EMTREES_MAX_CLASSES)
                             f32_zero))) Hfl ltac:(lia))
    as (votes & k & [= <-] & Hpredict & Hk).
  { apply Hproba. rewrite length_replicate. unfold EMTREES_MAX_CLASSES. lia. }
  rewrite Hpredict. f_equal.
  destruct Hk as [[-> _] | (Hrange & vk & Hvk & Hpos & _)]; [reflexivity |].
  rewrite lookup_app_l in Hvk by (rewrite length_replicate; lia).
  apply lookup_replicate in Hvk as [-> _]. discriminate Hpos.
Qed.

Lemma X9_witness :
  (forall buf, n_classes scenario_C <= Z.of_nat (length buf) ->
     eml_trees_predict_proba 1 scenario_C (Some [5]) 1
       (Some buf) (n_classes scenario_C)
     = Done (EmlOk,
             Some (replicate (Z.to_nat (n_classes scenario_C)) f32_zero
                   ++ drop (Z.to_nat (n_classes scenario_C)) buf))) /\
  (1 = n_features scenario_C ->
   eml_trees_predict 1 scenario_C (Some [5]) 1 = Done (-1)).
Proof.
  apply (X9_soft_vote_below_255_selects_nothing scenario_C [5] 1 1%nat).
  - reflexivity.
  - reflexivity.
  - reflexivity.
  - simpl. lia.
  - simpl. lia.
  - lia.
Defined.

(** ** Votes and the selected class *)

Lemma unit_votes_tally (cs : list Z) :
  forall (counts : list Z) (rest : list f32),
    Forall (fun c => 0 <= c < Z.of_nat (length counts)) cs ->
    Forall (fun c => 0 <= c) counts ->
    Zsum counts + Z.of_nat (length cs) <= 2 ^ 24 ->
    foldl unit_vote ((f32_of_Z <$> counts) ++ rest) cs
    = (f32_of_Z <$> foldl tally counts cs) ++ rest /\
    length (foldl tally counts cs) = length counts /\
    Forall (fun c => 0 <= c) (foldl tally counts cs) /\
    Zsum (foldl tally counts cs) = Zsum counts + Z.of_nat (length cs).
Proof.
  induction cs as [| c cs IH]; intros counts rest Hcs Hpos Hsum.
  - cbn [foldl length]. repeat split; (assumption || lia).
  - inversion Hcs as [| ? ? Hc Hcs']; subst.
    destruct (lookup_lt_is_Some_2 counts (Z.to_nat c)) as [cnt Hcnt]; [lia |].
    pose proof (Zsum_lookup_le counts _ cnt Hpos Hcnt) as Hle.
    assert (Hcnt0 : 0 <= cnt).
    { rewrite Forall_lookup in Hpos. eapply Hpos, Hcnt. }
    cbn [length] in Hsum. cbn [foldl].
    assert (Htally : tally counts c = <[Z.to_nat c := cnt + 1]> counts)
      by (unfold tally; now rewrite Hcnt).
    rewrite (unit_vote_count counts rest c cnt) by (assumption || lia).
    rewrite Htally.
    destruct (IH (<[Z.to_nat c := cnt + 1]> counts) rest)
      as (Hfold & Hlen & Hpos' & Hsum').
    + rewrite length_insert. exact Hcs'.
    + apply Forall_insert; [assumption | lia].
    + rewrite (Zsum_insert _ _ cnt) by assumption. lia.
    + rewrite length_insert in Hlen.
      rewrite (Zsum_insert _ _ cnt) in Hsum' by assumption.
      repeat split; try assumption. cbn [length]. lia.
Qed.

Lemma tally_lookup (cs : list Z) :
  Forall (fun c => 0 <= c) cs ->
  forall (counts : list Z) (k : nat) (x : Z),
    foldl tally counts cs !! k = Some x ->
    exists x0,
      counts !! k = Some x0 /\ x0 <= x /\ (x0 < x -> Z.of_nat k ∈ cs).
Proof.
  induction 1 as [| c cs Hc Hcs IH]; intros counts k x Hx.
  - exists x. cbn [foldl] in Hx. repeat split; (assumption || lia).
  - cbn [foldl] in Hx. destruct (IH _ _ _ Hx) as (x1 & Hx1 & Hle & Hin).
    unfold tally in Hx1.
    destruct (counts !! Z.to_nat c) as [cnt |] eqn:Hcnt.
    + destruct (Nat.eq_dec (Z.to_nat c) k) as [<- | Hne].
      * rewrite list_lookup_insert_eq in Hx1
          by (eapply lookup_lt_Some, Hcnt).
        injection Hx1 as <-. exists cnt.
        split; [exact Hcnt | split; [lia |]].
        intros _. rewrite Z2Nat.id by assumption. left.
      * rewrite list_lookup_insert_ne in Hx1 by assumption.
        exists x1. split; [assumption | split; [assumption |]].
        intros Hlt. right. now apply Hin.
    + exists x1. split; [assumption | split; [assumption |]].
      intros Hlt. right. now apply Hin.
Qed.

Lemma Zsum_positive_lookup (l : list Z) :
  Forall (fun c => 0 <= c) l -> 0 < Zsum l ->
  exists (i : nat) (x : Z), l !! i = Some x /\ 0 < x.
Proof.
  induction 1 as [| a l Ha Hall IH]; cbn [Zsum]; intros Hsum; [lia |].
  destruct (Z.eq_dec a 0) as [-> | Hne].
  - destruct (IH ltac:(lia)) as (i & x & Hx & Hpos).
    exists (S i), x. split; assumption.
  - exists 0%nat, a. split; [reflexivity | lia].
Qed.

(** X12: a well-formed majority-vote ensemble of 1 to [2^24] trees always
    gets a class from [eml_trees_predict], and the class is one that at least
    one tree voted for; so a unanimous ensemble gets the class of its
    trees. *)
Theorem X12_majority_predict_returns_a_voted_class
    forest feats features_length depth :
  forest_wfb forest feats depth = true ->
  leaf_bits forest = 0 ->
  class_bytes_wfb forest = true ->
  1 <= n_trees forest <= 2 ^ 24 ->
  features_length = n_features forest ->
  n_classes forest <= 30 ->
  exists cs,
    Forall2 (fun root c =>
               exists l, spec_traverse (nodes forest) feats root l /\
                         0 <= l /\ leaves forest !! Z.to_nat l = Some c)
      (take (Z.to_nat (n_trees forest)) (tree_roots forest)) cs /\
    forall fuel, (depth <= fuel)%nat ->
      exists k,
        eml_trees_predict fuel forest (Some feats) features_length = Done k /\
        k ∈ cs.
Proof.
  intros Hwf Hbits Hclass Htrees Hfl Hmax.
  apply forest_wfb_wf in Hwf.
  pose proof (class_bytes_wfb_spec forest Hclass) as Hclass'.
  set (votes0 := replicate (Z.to_nat EMTREES_MAX_CLASSES) f32_zero).
  set (n := Z.to_nat (n_classes forest)).
  assert (Hcap : n_classes forest <= Z.of_nat (length votes0)).
  { unfold votes0. rewrite length_replicate.
    unfold EMTREES_MAX_CLASSES. lia. }
  destruct (majority_accumulate_wf forest feats depth features_length
              Hwf Hbits Hclass' votes0 Hcap) as (cs & Hcs & Hrange & Hacc).
  fold n in Hacc.
  assert (Hlen : length cs = Z.to_nat (n_trees forest)).
  { rewrite <- (Forall2_length _ _ _ Hcs), length_take.
    pose proof (wf_trees _ _ _ Hwf). lia. }
  destruct (unit_votes_tally cs (replicate n 0) (drop n votes0))
    as (Hfold & Hclen & Hpos & Hsum).
  { rewrite length_replicate. eapply Forall_impl; [exact Hrange |].
    cbn beta. intros c Hc. lia. }
  { apply Forall_replicate. lia. }
  { rewrite Zsum_replicate_0, Hlen. lia. }
  rewrite fmap_replicate in Hfold. change (f32_of_Z 0) with f32_zero in Hfold.
  rewrite length_replicate in Hclen.
  rewrite Zsum_replicate_0, Hlen, Z.add_0_l, Z2Nat.id in Hsum by lia.
  set (counts := foldl tally (replicate n 0) cs) in *.
  exists cs. split; [assumption |].
  intros fuel Hfuel.
  assert (Hproba :
    eml_trees_predict_proba fuel forest (Some feats) features_length
      (Some votes0) (n_classes forest)
    = Done (EmlOk,
            Some (((fun a => f32_div a (f32_of_Z (n_trees forest)))
                     <$> (f32_of_Z <$> counts)) ++ drop n votes0))).
  { unfold eml_trees_predict_proba, EML_PRECONDITION, eml_trees_outputs_proba.
    rewrite !bool_decide_eq_true_2 by eauto.
    rewrite Z.eqb_refl. cbn [deref obind].
    rewrite (Hacc fuel Hfuel), Hfold. cbn [obind].
    rewrite predict_proba_mean_Done
      by (rewrite length_app, length_fmap, length_drop; lia).
    fold n. rewrite take_app_length', drop_app_length'
      by (rewrite length_fmap; lia).
    reflexivity. }
  destruct (predict_of_scores _ _ _ _ _ Hfl Hmax Hproba)
    as (scores & k & [= <-] & Hpredict & Hk).
  assert (Hscore : forall (j : nat) (x : Z),
    counts !! j = Some x ->
    (((fun a => f32_div a (f32_of_Z (n_trees forest)))
        <$> (f32_of_Z <$> counts)) ++ drop n votes0) !! j
    = Some (f32_div (f32_of_Z x) (f32_of_Z (n_trees forest)))).
  { intros j x Hx. rewrite lookup_app_l
      by (rewrite !length_fmap; eapply lookup_lt_Some, Hx).
    now rewrite !list_lookup_fmap, Hx. }
  assert (Hbound : forall (j : nat) (x : Z),
    counts !! j = Some x -> 0 <= x <= 2 ^ 24).
  { intros j x Hx. pose proof (Zsum_lookup_le counts j x Hpos Hx).
    rewrite Forall_lookup in Hpos. specialize (Hpos j x Hx). lia. }
  assert (Hcs0 : Forall (fun c => 0 <= c) cs).
  { eapply Forall_impl; [exact Hrange |]. cbn beta. intros c Hc. lia. }
  assert (Hkin : k ∈ cs).
  { destruct Hk as [[-> Hnone] | (Hkr & vk & Hvk & Hkpos & _)].
    - exfalso.
      destruct (Zsum_positive_lookup counts Hpos ltac:(lia))
        as (j & x & Hx & Hxpos).
      pose proof (Hbound j x Hx) as Hxb.
      specialize (Hnone (Z.of_nat j) _
                    ltac:(apply lookup_lt_Some in Hx; lia)
                    ltac:(rewrite Nat2Z.id; exact (Hscore j x Hx))).
      rewrite f32_div_positive in Hnone by lia. discriminate.
    - destruct (lookup_lt_is_Some_2 counts (Z.to_nat k)) as [x Hx]; [lia |].
      rewrite (Hscore _ _ Hx) in Hvk. injection Hvk as <-.
      destruct (Z.eq_dec x 0) as [-> | Hne].
      { change (f32_of_Z 0) with f32_zero in Hkpos.
        rewrite f32_div_zero in Hkpos by assumption. discriminate. }
      pose proof (Hbound _ _ Hx) as Hxb.
      destruct (tally_lookup cs Hcs0 _ _ _ Hx) as (x0 & Hx0 & _ & Hin).
      apply lookup_replicate in Hx0 as [-> _].
      rewrite Z2Nat.id in Hin by lia. apply Hin. lia. }
  exists k. split; assumption.
Qed.

Lemma X12_witness :
  exists cs,
    Forall2 (fun root c =>
               exists l, spec_traverse (nodes scenario_B) [5] root l /\
                         0 <= l /\ leaves scenario_B !! Z.to_nat l = Some c)
      (take (Z.to_nat (n_trees scenario_B)) (tree_roots scenario_B)) cs /\
    forall fuel, (1 <= fuel)%nat ->
      exists k,
        eml_trees_predict fuel scenario_B (Some [5]) 1 = Done k /\ k ∈ cs.
Proof.
  apply (X12_majority_predict_returns_a_voted_class scenario_B [5] 1 1%nat).
  - reflexivity.
  - reflexivity.
  - reflexivity.
  - vm_compute. split; discriminate.
  - reflexivity.
  - simpl. lia.
Defined.

(** ** A class number outside the buffer *)

Lemma spec_traverse_deterministic nds features root l1 l2 :
  spec_traverse nds features root l1 ->
  spec_traverse nds features root l2 -> l1 = l2.
Proof.
  intros (f1 & H1 & ->) (f2 & H2 & ->).
  now rewrite (spec_walk_deterministic _ _ _ _ _ H1 H2).
Qed.

Lemma load_out_of_bounds {A} (a : list A) (i : Z) :
  ~ (0 <= i < Z.of_nat (length a)) -> load a i = Undefined.
Proof.
  intros Hi. unfold load. destruct (Z.ltb_spec i 0); [reflexivity |].
  rewrite lookup_ge_None_2 by lia. reflexivity.
Qed.

Section ClassOutOfBounds.

Variables (forest : EmlTrees) (feats : list Z) (depth : nat).
Variable features_length : Z.
Hypothesis Hwf : forest_wf forest feats depth.
Hypothesis Hbits : leaf_bits forest = 0.

Lemma majority_from_out_of_bounds (todo : nat) :
  forall (i : nat) (out : list f32) (j : nat) (root l c : Z),
    Z.of_nat (i + todo) <= n_trees forest ->
    (i <= j < i + todo)%nat ->
    tree_roots forest !! j = Some root ->
    spec_traverse (nodes forest) feats root l ->
    0 <= l ->
    leaves forest !! Z.to_nat l = Some c ->
    ~ (0 <= c < Z.of_nat (length out)) ->
    forall fuel, (depth <= fuel)%nat ->
      for_from todo (Z.of_nat i)
        (majority_vote_tree fuel forest (Some feats) features_length) out
      = Undefined.
Proof.
  induction todo as [| todo IH];
    intros i out j root l c Hi Hj Hroot Hspec Hl Hc Hbad fuel Hfuel; [lia |].
  destruct (tree_of_forest forest feats depth features_length Hwf
              (Z.of_nat i) ltac:(lia))
    as (root_i & leaf_i & Hroot_i & Hspec_i & Hleaf_i & _ & Hrun).
  rewrite Nat2Z.id in Hroot_i.
  destruct (lookup_lt_is_Some_2 (leaves forest) (Z.to_nat leaf_i))
    as [c_i Hc_i].
  { pose proof (wf_leaves _ _ _ Hwf) as Hlen. unfold bytes_per_leaf in Hlen.
    rewrite Hbits in Hlen. cbn in Hlen. lia. }
  cbn [for_from]. unfold majority_vote_tree at 1.
  rewrite (load_Done (tree_roots forest) (Z.of_nat i) root_i)
    by (lia || (rewrite Nat2Z.id; exact Hroot_i)).
  cbn [obind]. rewrite (Hrun fuel Hfuel). cbn [obind].
  rewrite (load_Done (leaves forest) leaf_i c_i) by (lia || assumption).
  cbn [obind].
  destruct (decide (0 <= c_i < Z.of_nat (length out))) as [Hin | Hout].
  - destruct (lookup_lt_is_Some_2 out (Z.to_nat c_i)) as [cur Hcur]; [lia |].
    rewrite (load_Done out c_i cur) by (lia || assumption). cbn [obind].
    rewrite store_Done by assumption. cbn [obind].
    replace (Z.of_nat i + 1) with (Z.of_nat (S i)) by lia.
    assert (Hne : j <> i).
    { intros ->. rewrite Hroot in Hroot_i. injection Hroot_i as <-.
      pose proof (spec_traverse_deterministic _ _ _ _ _ Hspec Hspec_i)
        as <-.
      rewrite Hc in Hc_i. injection Hc_i as <-. contradiction. }
    apply (IH (S i) _ j root l c); try assumption; try lia.
    now rewrite length_insert.
  - rewrite load_out_of_bounds by assumption. reflexivity.
Qed.

End ClassOutOfBounds.

(** X10: the class number read from a leaf is not checked against the size
    of the buffer. When a tree of a well-formed majority-vote model reaches
    a leaf whose byte is not an index of the buffer,
    [eml_trees_predict_proba] accesses [out] out of bounds; in
    [eml_trees_predict], whose buffer has 30 elements, this happens for a
    byte of 30 or more, and no error is returned. *)
Theorem X10_class_number_not_checked
    forest feats features_length depth (j : nat) root l c :
  forest_wfb forest feats depth = true ->
  leaf_bits forest = 0 ->
  (j < Z.to_nat (n_trees forest))%nat ->
  tree_roots forest !! j = Some root ->
  spec_traverse (nodes forest) feats root l ->
  0 <= l ->
  leaves forest !! Z.to_nat l = Some c ->
  forall fuel, (depth <= fuel)%nat ->
    (forall buf, Z.of_nat (length buf) <= c ->
       eml_trees_predict_proba fuel forest (Some feats) features_length
         (Some buf) (n_classes forest) = Undefined) /\
    (30 <= c -> features_length = n_features forest ->
     n_classes forest <= 30 ->
     eml_trees_predict fuel forest (Some feats) features_length = Undefined).
Proof.
  intros Hwf Hbits Hj Hroot Hspec Hl Hc fuel Hfuel.
  apply forest_wfb_wf in Hwf.
  assert (Hproba : forall buf, Z.of_nat (length buf) <= c ->
    eml_trees_predict_proba fuel forest (Some feats) features_length
      (Some buf) (n_classes forest) = Undefined).
  { intros buf Hbuf.
    unfold eml_trees_predict_proba, EML_PRECONDITION, eml_trees_outputs_proba.
    rewrite !bool_decide_eq_true_2 by eauto.
    rewrite Z.eqb_refl. cbn [deref obind]. unfold predict_proba_accumulate.
    rewrite zero_fill_loop.
    destruct (decide (n_classes forest <= Z.of_nat (length buf)));
      [| reflexivity].
    cbn [obind]. rewrite Hbits. cbn [Z.eqb]. unfold for_loop.
    change 0 with (Z.of_nat 0) at 1.
    rewrite (majority_from_out_of_bounds forest feats depth features_length
               Hwf Hbits (Z.to_nat (n_trees forest)) 0 _ j root l c);
      try assumption; try reflexivity.
    - pose proof (wf_trees _ _ _ Hwf). lia.
    - lia.
    - rewrite length_app, length_replicate, length_drop. lia. }
  split; [exact Hproba |].
  intros Hc30 Hfl Hmax. rewrite predict_guards_pass by assumption.
  rewrite Hproba; [reflexivity |].
  rewrite length_replicate. unfold EMTREES_MAX_CLASSES. lia.
Qed.

Lemma X10_witness :
  (forall buf, Z.of_nat (length buf) <= 40 ->
     eml_trees_predict_proba 1 class_out_of_range_model (Some [5]) 1
       (Some buf) (n_classes class_out_of_range_model) = Undefined) /\
  (30 <= 40 -> 1 = n_features class_out_of_range_model ->
   n_classes class_out_of_range_model <= 30 ->
   eml_trees_predict 1 class_out_of_range_model (Some [5]) 1 = Undefined).
Proof.
  apply (X10_class_number_not_checked class_out_of_range_model [5] 1 1%nat
           0%nat 0 0 40).
  - reflexivity.
  - reflexivity.
  - simpl. lia.
  - reflexivity.
  - exists (-1). split; [| reflexivity].
    apply (spec_walk_step _ _ 0 scenario_A_node 5 (-1) (-1));
      try reflexivity; try (simpl; lia).
    apply spec_walk_exit. lia.
  - lia.
  - reflexivity.
  - lia.
Defined.

(** ** The value of [eml_trees_regress1] *)

(** X11: for a well-formed regression model [eml_trees_regress1] returns,
    given fuel for the depth of the trees, the sum of the [float]s decoded at
    the leaves that the trees reach, divided by [n_trees]: the value that
    [eml_trees_regress] writes to [out[0]]. *)
Theorem X11_regress1_returns_the_mean forest feats features_length depth :
  forest_wfb forest feats depth = true ->
  leaf_bits forest = 32 ->
  exists ls vals,
    Forall2 (spec_traverse (nodes forest) feats)
      (take (Z.to_nat (n_trees forest)) (tree_roots forest)) ls /\
    Forall2 (fun l v => load_float (leaves forest) (l * 4) = Done v)
      ls vals /\
    forall fuel, (depth <= fuel)%nat ->
      eml_trees_regress1 fuel forest (Some feats) features_length
      = Done (f32_div (foldl f32_add f32_zero vals)
                (f32_of_Z (n_trees forest))).
Proof.
  intros Hwf Hbits. apply forest_wfb_wf in Hwf.
  destruct (regress_wf forest feats depth features_length Hwf Hbits)
    as (ls & vals & Hls & Hvals & Hrun).
  exists ls, vals. split; [assumption | split; [assumption |]].
  intros fuel Hfuel. unfold eml_trees_regress1.
  rewrite (Hrun fuel f32_zero [] 1 Hfuel ltac:(lia)). reflexivity.
Qed.

Lemma X11_witness :
  exists ls vals,
    Forall2 (spec_traverse (nodes scenario_regression) [5])
      (take (Z.to_nat (n_trees scenario_regression))
         (tree_roots scenario_regression)) ls /\
    Forall2 (fun l v => load_float (leaves scenario_regression) (l * 4)
                        = Done v) ls vals /\
    forall fuel, (1 <= fuel)%nat ->
      eml_trees_regress1 fuel scenario_regression (Some [5]) 1
      = Done (f32_div (foldl f32_add f32_zero vals)
                (f32_of_Z (n_trees scenario_regression))).
Proof.
  apply (X11_regress1_returns_the_mean scenario_regression [5] 1 1%nat).
  - reflexivity.
  - reflexivity.
Defined.
